(** * Timeline layout and interaction engine of the Gantt chart

    Shallow embedding of the parts of [src/src/index.ts] and [src/src/bar.ts]
    that compute dependency closures, snapping, ignored regions, bar geometry
    and task validation.  The date arithmetic module [date_utils] is not part
    of the sources; the definitions standing for it say so in their doc
    comments and follow the spec's description of that module. *)

From Stdlib Require Import ZArith QArith Qround List String Ascii Bool Lia Lqa.
Import ListNotations.
Open Scope string_scope.
Open Scope list_scope.

(* ------------------------------------------------------------------ *)
(** ** Dependency map and dependent closure ([Gantt.setup_dependencies],
       [Gantt.get_all_dependent_tasks]) *)
Module Deps.

(** A JavaScript value in a frontier array: a task id, or [undefined]
    (what [acc.concat(this.dependency_map[curr])] appends when [curr] has
    no entry in the map). *)
Definition jsid := option string.

(** [this.dependency_map]: a plain object from a task id to the ids of
    the tasks that list it as a dependency, kept in insertion order. *)
Definition dep_map := list (string * list string).

Fixpoint lookup (m : dep_map) (k : string) : option (list string) :=
  match m with
  | [] => None
  | (k', v) :: m' => if String.eqb k k' then Some v else lookup m' k
  end.

(** [this.dependency_map[d] = this.dependency_map[d] || [];
     this.dependency_map[d].push(t.id)] *)
Fixpoint push_dep (m : dep_map) (d id : string) : dep_map :=
  match m with
  | [] => [(d, [id])]
  | (k, v) :: m' =>
      if String.eqb d k then (k, v ++ [id]) :: m' else (k, v) :: push_dep m' d id
  end.

(** A task as [setup_dependencies] reads it: its id and dependency list. *)
Record dtask := mk_dtask { t_id : string; t_dependencies : list string }.

(** [setup_dependencies]: for each task, for each of its dependencies [d],
    append the task's id to [dependency_map[d]]. *)
Definition setup_dependencies (tasks : list dtask) : dep_map :=
  fold_left (fun m t => fold_left (fun m d => push_dep m d (t_id t)) (t_dependencies t) m)
            tasks [].

(** Property access with a non-string key converts it to a string:
    [this.dependency_map[undefined]] reads the key ["undefined"]. *)
Definition key_of (v : jsid) : string :=
  match v with Some s => s | None => "undefined" end.

(** One step of the [reduce]: [acc = acc.concat(this.dependency_map[curr])];
    concatenating [undefined] appends one [undefined] element. *)
Definition concat_lookup (m : dep_map) (acc : list jsid) (curr : jsid) : list jsid :=
  match lookup m (key_of curr) with
  | Some ids => acc ++ map Some ids
  | None => acc ++ [None]
  end.

Definition jsid_eqb (a b : jsid) : bool :=
  match a, b with
  | Some x, Some y => String.eqb x y
  | None, None => true
  | _, _ => false
  end.

(** [to_process.includes(d)] *)
Definition includes (l : list jsid) (d : jsid) : bool := existsb (jsid_eqb d) l.

(** The [while (to_process.length)] loop; [fuel] bounds the number of
    iterations and [None] means the loop had not stopped when it ran out. *)
Fixpoint dependents_loop (fuel : nat) (m : dep_map) (to_process out : list jsid)
  : option (list jsid) :=
  match to_process with
  | [] => Some out
  | _ :: _ =>
      match fuel with
      | O => None
      | S f =>
          let deps := fold_left (concat_lookup m) to_process [] in
          dependents_loop f m (filter (fun d => negb (includes to_process d)) deps)
                          (out ++ deps)
      end
  end.

(** [Boolean(v)]: [undefined] and the empty string are falsy. *)
Definition truthy (v : jsid) : bool :=
  match v with Some s => negb (String.eqb s "") | None => false end.

Fixpoint filter_truthy (l : list jsid) : list string :=
  match l with
  | [] => []
  | Some s :: l' => if String.eqb s "" then filter_truthy l' else s :: filter_truthy l'
  | None :: l' => filter_truthy l'
  end.

(** [get_all_dependent_tasks(task_id)], run with at most [fuel] loop
    iterations. *)
Definition get_all_dependent_tasks (fuel : nat) (m : dep_map) (task_id : string)
  : option (list string) :=
  match dependents_loop fuel m [Some task_id] [] with
  | Some out => Some (filter_truthy out)
  | None => None
  end.

(** Successors of a task in the map, and reachability from a start id. *)
Definition succs (m : dep_map) (u : string) : list string :=
  match lookup m u with Some l => l | None => [] end.

Inductive reachable (m : dep_map) (s : string) : string -> Prop :=
  | reach_refl : reachable m s s
  | reach_step u v : reachable m s u -> In v (succs m u) -> reachable m s v.

(** The part of the graph reachable from [s] is acyclic: some rank
    strictly decreases along every edge leaving a reachable node. *)
Definition acyclic_from (m : dep_map) (s : string) : Prop :=
  exists rank : string -> nat,
    forall u v, reachable m s u -> In v (succs m u) -> (rank v < rank u)%nat.

(** The diamond A -> B, A -> C, B -> D, C -> D, as task dependency lists. *)
Definition diamond_tasks : list dtask :=
  [mk_dtask "A" []; mk_dtask "B" ["A"]; mk_dtask "C" ["A"]; mk_dtask "D" ["B"; "C"]].

(** Task [X] lists a dependency on the id ["undefined"]; task [A] has no
    dependents. *)
Definition undefined_key_tasks : list dtask :=
  [mk_dtask "A" []; mk_dtask "X" ["undefined"]].

End Deps.

(* ------------------------------------------------------------------ *)
(** ** Durations, scales and snapping ([Gantt.get_snap_position],
       [Gantt.get_ignored_region]) *)
Module Snap.

(** Pixel values are JavaScript numbers; they are modelled as rationals. *)
Definition Qltb (a b : Q) : bool := negb (Qle_bool b a).

Inductive scale := Year | Month | Week | Day | Hour | Minute | Second.

Definition digit_value (c : ascii) : option Z :=
  let n := nat_of_ascii c in
  if (48 <=? n)%nat && (n <=? 57)%nat then Some (Z.of_nat n - 48)%Z else None.

(** Leading decimal digits of a string, their value and the rest. *)
Fixpoint read_digits (s : string) (acc : Z) (any : bool) : option (Z * string) :=
  match s with
  | EmptyString => if any then Some (acc, EmptyString) else None
  | String c s' =>
      match digit_value c with
      | Some d => read_digits s' (10 * acc + d)%Z true
      | None => if any then Some (acc, s) else None
      end
  end.

Definition scale_of_suffix (u : string) : option scale :=
  if String.eqb u "y" then Some Year
  else if String.eqb u "m" then Some Month
  else if String.eqb u "w" then Some Week
  else if String.eqb u "d" then Some Day
  else if String.eqb u "h" then Some Hour
  else if String.eqb u "min" then Some Minute
  else if String.eqb u "s" then Some Second
  else None.

(** Modelled from the spec: [date_utils.parse_duration], which is not in
    the sources, parses duration strings such as ["5d"] or ["2w"] into a
    count and a unit; anything else gives no result. *)
Definition parse_duration (s : string) : option (Z * scale) :=
  match read_digits s 0%Z false with
  | Some (n, u) =>
      match scale_of_suffix u with Some sc => Some (n, sc) | None => None end
  | None => None
  end.

(** Length of a unit in days, as the unit-scale conversion uses it. *)
Definition days_of_scale (sc : scale) : Q :=
  match sc with
  | Year => 365 | Month => 30 | Week => 7 | Day => 1
  | Hour => 1 # 24 | Minute => 1 # 1440 | Second => 1 # 86400
  end.

(** Modelled from the spec: [date_utils.convert_scales(period, scale)],
    not in the sources, converts a duration string into a number of
    units of [scale]. *)
Definition convert_scales (period : string) (to : scale) : option Q :=
  match parse_duration period with
  | Some (n, sc) => Some (inject_Z n * days_of_scale sc / days_of_scale to)
  | None => None
  end.

(** What [get_snap_position] reads from [this.options] and [this.config]:
    [default_snap] is [this.options.snap_at || this.config.view_mode.snap_at
    || '1d'] and [step] is [this.config.view_mode.step]. *)
Record snap_config := mk_snap_config {
  column_width : Q;
  step : string;
  default_snap : string;
  ignored_positions : list Q
}.

(** [get_ignored_region(pos, drn)], reading [this.config.ignored_positions]
    and [this.config.column_width]. *)
Definition get_ignored_region (ignored : list Q) (cw : Q) (pos : Q) (drn : Z) : list Q :=
  if Z.eqb drn 1 then
    filter (fun val => Qltb val pos && Qle_bool pos (val + cw)) ignored
  else
    filter (fun val => Qle_bool val pos && Qltb pos (val + cw)) ignored.

(** [Math.trunc] and the JavaScript remainder [a % b = a - b * trunc(a / b)]. *)
Definition js_trunc (q : Q) : Z :=
  if Qle_bool 0 q then Qfloor q else (- Qfloor (- q))%Z.

Definition js_rem (a b : Q) : Q := a - b * inject_Z (js_trunc (a / b)).

(** [unit_length]: 1 for the ['unit'] snap, otherwise
    [convert_scales(step, scale) / duration]; [None] where the source
    destructures an unparsable duration and throws. *)
Definition unit_length (cfg : snap_config) : option Q :=
  if String.eqb (default_snap cfg) "unit" then Some 1
  else match parse_duration (default_snap cfg) with
       | Some (duration, sc) =>
           match convert_scales (step cfg) sc with
           | Some c => Some (c / inject_Z duration)
           | None => None
           end
       | None => None
       end.

(** The [while (ignored_regions.length)] loop of [get_snap_position], with
    at most [fuel] iterations. *)
Fixpoint skip_ignored (fuel : nat) (cfg : snap_config) (drn : Z) (pos : Q)
         (regions : list Q) : option Q :=
  match regions with
  | [] => Some pos
  | _ :: _ =>
      match fuel with
      | O => None
      | S f =>
          let pos1 := pos + column_width cfg * inject_Z drn in
          let regions1 := get_ignored_region (ignored_positions cfg) (column_width cfg) pos1 drn in
          let pos2 := match regions1 with
                      | [] => pos1 - column_width cfg * inject_Z drn
                      | _ :: _ => pos1
                      end in
          skip_ignored f cfg drn pos2 regions1
      end
  end.

(** The rounding step: [dx - rem + (rem < inc * 2 ? 0 : inc)]. *)
Definition snap_round (inc dx : Q) : Q :=
  let rem := js_rem dx inc in
  dx - rem + (if Qltb rem (inc * 2) then 0 else inc).

(** [get_snap_position(dx, ox)] *)
Definition get_snap_position (fuel : nat) (cfg : snap_config) (dx ox : Q) : option Q :=
  match unit_length cfg with
  | None => None
  | Some ul =>
      let inc := column_width cfg / ul in
      let final_dx := snap_round inc dx in
      let final_pos := ox + final_dx in
      let drn := if Qltb 0 final_dx then 1%Z else (-1)%Z in
      match skip_ignored fuel cfg drn final_pos (get_ignored_region (ignored_positions cfg) (column_width cfg) final_pos drn) with
      | Some p => Some (p - ox)
      | None => None
      end
  end.

(** Day view: 45 px columns, one day per column, snapping to a day. *)
Definition day_view (ignored : list Q) : snap_config :=
  mk_snap_config 45 "1d" "1d" ignored.

(** Three days per column, snapping to two days: the snap increment is
    30 px, two thirds of a 45 px column. *)
Definition three_day_view (ignored : list Q) : snap_config :=
  mk_snap_config 45 "3d" "2d" ignored.

End Snap.

(* ------------------------------------------------------------------ *)
(** ** Calendar arithmetic ([date_utils])

    [date_utils] is not in the sources.  A date is a JavaScript time
    value: milliseconds since 1970-01-01, read in a time zone without
    daylight saving (UTC).  Calendar fields are obtained with the usual
    proleptic Gregorian day-number conversion. *)
Module Dates.
Import Snap.
Local Open Scope Z_scope.

Definition ms_per_day : Z := 86400000.

(** Day number (days since 1970-01-01) of a civil date, month in 1..12. *)
Definition days_from_civil (y m d : Z) : Z :=
  let y' := if m <=? 2 then y - 1 else y in
  let era := y' / 400 in
  let yoe := y' - era * 400 in
  let mp := if 2 <? m then m - 3 else m + 9 in
  let doy := (153 * mp + 2) / 5 + d - 1 in
  let doe := yoe * 365 + yoe / 4 - yoe / 100 + doy in
  era * 146097 + doe - 719468.

(** Year of the 400-year era, day of that year (from March 1) and month
    index (0 is March) of the day [doe] of an era. *)
Definition year_of_era (doe : Z) : Z :=
  (doe - doe / 1460 + doe / 36524 - doe / 146096) / 365.

Definition day_of_year (doe : Z) : Z :=
  let yoe := year_of_era doe in
  doe - (365 * yoe + yoe / 4 - yoe / 100).

Definition month_index (doy : Z) : Z := (5 * doy + 2) / 153.

(** Civil date (year, month in 1..12, day) of a day number. *)
Definition civil_from_days (z : Z) : Z * Z * Z :=
  let z' := z + 719468 in
  let era := z' / 146097 in
  let doe := z' - era * 146097 in
  let yoe := year_of_era doe in
  let y := yoe + era * 400 in
  let doy := day_of_year doe in
  let mp := month_index doy in
  let d := doy - (153 * mp + 2) / 5 + 1 in
  let m := if mp <? 10 then mp + 3 else mp - 9 in
  (if m <=? 2 then y + 1 else y, m, d).

(** The fields [getFullYear], [getMonth] (0-based), [getDate] and the
    milliseconds elapsed in the day. *)
Record fields := mk_fields { f_year : Z; f_month : Z; f_day : Z; f_ms : Z }.

Definition to_fields (t : Z) : fields :=
  let '(y, m, d) := civil_from_days (t / ms_per_day) in
  mk_fields y (m - 1) d (t mod ms_per_day).

(** [new Date(y, month, day, 0, 0, 0, ms)]: an out-of-range month carries
    into the year and an out-of-range day into the following months. *)
Definition make_date (y month day ms : Z) : Z :=
  let y' := y + month / 12 in
  let m' := month mod 12 in
  (days_from_civil y' (m' + 1) 1 + day - 1) * ms_per_day + ms.

(** Length in milliseconds of the units of fixed length. *)
Definition fixed_length (u : scale) : option Z :=
  match u with
  | Week => Some (7 * ms_per_day)
  | Day => Some ms_per_day
  | Hour => Some 3600000
  | Minute => Some 60000
  | Second => Some 1000
  | Month | Year => None
  end.

(** Lexicographic comparison of (day, ms) and (month, day, ms). *)
Definition before_in_month (a b : fields) : bool :=
  (f_day a <? f_day b) || ((f_day a =? f_day b) && (f_ms a <? f_ms b)).

Definition before_in_year (a b : fields) : bool :=
  (f_month a <? f_month b) || ((f_month a =? f_month b) && before_in_month a b).

(** Modelled from the spec: [date_utils.diff(a, b, unit)], the number of
    whole units from [b] to [a]; months and years are counted by comparing
    calendar fields, not by dividing milliseconds. *)
Definition diff (a b : Z) (u : scale) : Z :=
  match fixed_length u with
  | Some len => (a - b) / len
  | None =>
      let fa := to_fields a in
      let fb := to_fields b in
      match u with
      | Year => f_year fa - f_year fb - (if before_in_year fa fb then 1 else 0)
      | _ => (f_year fa - f_year fb) * 12 + (f_month fa - f_month fb)
             - (if before_in_month fa fb then 1 else 0)
      end
  end.

(** Modelled from the spec: [date_utils.add(date, n, unit)] adds [n] units;
    the count is truncated to an integer as the [Date] constructor does
    with the fields it is given. *)
Definition add (t : Z) (n : Q) (u : scale) : Z :=
  let k := js_trunc n in
  match fixed_length u with
  | Some len => t + k * len
  | None =>
      let f := to_fields t in
      match u with
      | Year => make_date (f_year f + k) (f_month f) (f_day f) (f_ms f)
      | _ => make_date (f_year f) (f_month f + k) (f_day f) (f_ms f)
      end
  end.

(** Day of the week, [getDay] (0 is Sunday; 1970-01-01 was a Thursday). *)
Definition week_day (t : Z) : Z := (t / ms_per_day + 4) mod 7.

(** Modelled from the spec: [date_utils.start_of(date, unit)], the date
    truncated to the unit (weeks start on Sunday). *)
Definition start_of (t : Z) (u : scale) : Z :=
  match u with
  | Year => make_date (f_year (to_fields t)) 0 1 0
  | Month => make_date (f_year (to_fields t)) (f_month (to_fields t)) 1 0
  | Week => (t / ms_per_day - week_day t) * ms_per_day
  | Day => t / ms_per_day * ms_per_day
  | Hour => t / 3600000 * 3600000
  | Minute => t / 60000 * 60000
  | Second => t / 1000 * 1000
  end.

(** The chart start lies on a unit boundary: for months and years its
    calendar fields are those of the first instant of the unit. *)
Definition unit_aligned (t : Z) (u : scale) : Prop :=
  match u with
  | Year => f_month (to_fields t) = 0 /\ f_day (to_fields t) = 1 /\ f_ms (to_fields t) = 0
  | Month => f_day (to_fields t) = 1 /\ f_ms (to_fields t) = 0
  | _ => start_of t u = t
  end.

End Dates.

(* ------------------------------------------------------------------ *)
(** ** Bars ([src/src/bar.ts]) *)
Module BarModel.
Import Snap Dates.

(** What a bar exposes to its dependents: the [x] and [width] attributes
    of its [$bar] rectangle, with its task's id and dependencies. *)
Record bar := mk_bar {
  b_id : string;
  b_x : Q;
  b_width : Q;
  b_dependencies : list string
}.

(** [this.bars]: the chart's bars, searched by [get_bar(id)]. *)
Definition bars := list bar.

Fixpoint get_bar (bs : bars) (id : string) : option bar :=
  match bs with
  | [] => None
  | b :: bs' => if String.eqb (b_id b) id then Some b else get_bar bs' id
  end.

(** Replace the bar of the same id. *)
Fixpoint set_bar (bs : bars) (b : bar) : bars :=
  match bs with
  | [] => []
  | b' :: bs' => if String.eqb (b_id b') (b_id b) then b :: bs' else b' :: set_bar bs' b
  end.

(** [dependencies.map(dep => this.gantt.get_bar(dep).$bar.getX())]; reading
    [$bar] of a missing bar throws, modelled as [None]. *)
Fixpoint dependency_xs (bs : bars) (deps : list string) : option (list Q) :=
  match deps with
  | [] => Some []
  | d :: deps' =>
      match get_bar bs d, dependency_xs bs deps' with
      | Some b, Some xs => Some (b_x b :: xs)
      | _, _ => None
      end
  end.

(** [update_bar_position({x, width})] on the bar [self].  Its later calls
    ([update_label_position], [date_changed], [compute_duration],
    [update_progressbar_position], [update_arrow_position], ...) update the
    task's dates, the progress bar, labels and arrows, not the [$bar]
    rectangle's [x] and [width] modelled here. *)
Definition update_bar_position (bs : bars) (self : bar) (x width : option Q)
  : option bars :=
  let after_x :=
    match x with
    | None => Some (Some self)
    | Some nx =>
        match dependency_xs bs (b_dependencies self) with
        | None => None
        | Some xs =>
            let valid_x := fold_left (fun prev curr => prev && Qle_bool curr nx) xs true in
            if valid_x then Some (Some (mk_bar (b_id self) nx (b_width self) (b_dependencies self)))
            else Some None
        end
    end in
  match after_x with
  | None => None
  | Some None => Some bs
  | Some (Some b) =>
      let b' := match width with
                | Some w => if Qltb 0 w then mk_bar (b_id b) (b_x b) w (b_dependencies b) else b
                | None => b
                end in
      Some (set_bar bs b')
  end.

(** Predecessor [A] spans 0..90; [B], which depends on [A], starts at 100. *)
Definition pred_succ_bars : bars :=
  [mk_bar "A" 0 90 []; mk_bar "B" 100 45 ["A"]].

(** The part of [this.gantt.config] the geometry reads. *)
Record gantt_config := mk_gantt_config {
  g_column_width : Q;
  g_step : Q;
  g_unit : scale;
  g_gantt_start : Z;
  g_ignored_positions : list Q;
  (** a day is in [ignored_dates] or [ignored_function] holds for it *)
  g_is_ignored : Z -> bool
}.

(** The loop of [calculate_progress_width] pushing the progress end out of
    ignored regions, with at most [fuel] iterations. *)
Fixpoint push_progress (fuel : nat) (cfg : gantt_config) (x pw : Q) : option Q :=
  match get_ignored_region (g_ignored_positions cfg) (g_column_width cfg) (x + pw) 1 with
  | [] => Some pw
  | _ :: _ =>
      match fuel with
      | O => None
      | S f => push_progress f cfg x (pw + g_column_width cfg)
      end
  end.

(** [ignored_positions.reduce((acc, val) => acc + (val >= x && val < e ? 1 : 0), 0)] *)
Definition count_ignored (ignored : list Q) (x e : Q) : Q :=
  fold_left (fun acc val => acc + (if Qle_bool x val && Qltb val e then 1 else 0)) ignored 0.

(** The progress width [calculate_progress_width()] computes before its
    loop, for a bar at [x] whose rectangle has width [width] and whose task
    has progress [progress]. *)
Definition unpushed_progress_width (cfg : gantt_config) (x width progress : Q) : Q :=
  let cw := g_column_width cfg in
  let ignored_end := x + width in
  let total_ignored_area := count_ignored (g_ignored_positions cfg) x ignored_end * cw in
  let progress_width := (width - total_ignored_area) * progress / 100 in
  let progress_end := x + progress_width in
  let total_ignored_progress := count_ignored (g_ignored_positions cfg) x progress_end * cw in
  progress_width + total_ignored_progress.

(** [calculate_progress_width()] *)
Definition calculate_progress_width (fuel : nat) (cfg : gantt_config) (x width progress : Q)
  : option Q :=
  push_progress fuel cfg x (unpushed_progress_width cfg x width progress).

(** Decimal digits of a non-negative integer ([n + 'd']). *)
Fixpoint decimal_digits (fuel : nat) (n : Z) (acc : string) : string :=
  let acc' := String (ascii_of_nat (48 + Z.to_nat (n mod 10)%Z)) acc in
  match fuel with
  | O => acc'
  | S f => if (n <? 10)%Z then acc' else decimal_digits f (n / 10)%Z acc'
  end.

Definition string_of_Z (n : Z) : string :=
  decimal_digits (Z.to_nat (Z.log2 n)) n "".

(** [new Date("YYYY-MM-DD")]: a date-only ISO string is read as midnight UTC. *)
Definition parse_iso_date (s : string) : option Z :=
  match read_digits s 0%Z false with
  | Some (y, String "-" r1) =>
      match read_digits r1 0%Z false with
      | Some (m, String "-" r2) =>
          match read_digits r2 0%Z false with
          | Some (d, EmptyString) => Some (make_date y (m - 1)%Z d 0%Z)
          | _ => None
          end
      | _ => None
      end
  | _ => None
  end.

(** [compute_x()]: [diff(task._start, gantt_start, unit) / step * column_width]. *)
Definition compute_x (cfg : gantt_config) (task_start : Z) : Q :=
  inject_Z (diff task_start (g_gantt_start cfg) (g_unit cfg)) / g_step cfg
  * g_column_width cfg.

(** The day walk of [compute_duration()]: from [d] while [d < _end], one
    day at a time, counting all days and the days not ignored. *)
Fixpoint walk_days (fuel : nat) (cfg : gantt_config) (d end_ total actual : Z)
  : option (Z * Z) :=
  if (d <? end_)%Z then
    match fuel with
    | O => None
    | S f => walk_days f cfg (d + ms_per_day)%Z end_ (total + 1)%Z
                       (if g_is_ignored cfg d then actual else (actual + 1)%Z)
    end
  else Some (total, actual).

Record duration_values := mk_duration_values {
  actual_duration : Z;
  ignored_duration : Z;
  duration : Q;
  actual_duration_raw : Q;
  ignored_duration_raw : Q
}.

(** [compute_duration()] *)
Definition compute_duration (fuel : nat) (cfg : gantt_config) (task_start task_end : Z)
  : option duration_values :=
  match walk_days fuel cfg task_start task_end 0%Z 0%Z with
  | None => None
  | Some (duration_in_days, actual_duration_in_days) =>
      match convert_scales (string_of_Z duration_in_days ++ "d")%string (g_unit cfg),
            convert_scales (string_of_Z actual_duration_in_days ++ "d")%string (g_unit cfg) with
      | Some c, Some ca =>
          let dur := c / g_step cfg in
          let raw := ca / g_step cfg in
          Some (mk_duration_values actual_duration_in_days
                  (duration_in_days - actual_duration_in_days)%Z dur raw (dur - raw))
      | _, _ => None
      end
  end.

(** The task fields [prepare_values] reads. *)
Record bar_task := mk_bar_task { bt_start : string; bt_end : string; bt_progress : Q }.

Record geometry := mk_geometry { g_x : Q; g_width : Q; g_duration : Q }.

(** The horizontal part of [prepare_values()]: [_start] and [_end] are
    re-read with [new Date(task.start)] and [new Date(task.end)], then
    [compute_x], [compute_duration] and [width = column_width * duration]. *)
Definition prepare_values (fuel : nat) (cfg : gantt_config) (t : bar_task) : option geometry :=
  match parse_iso_date (bt_start t), parse_iso_date (bt_end t) with
  | Some s, Some e =>
      match compute_duration fuel cfg s e with
      | Some dv => Some (mk_geometry (compute_x cfg s) (g_column_width cfg * duration dv)
                                     (duration dv))
      | None => None
      end
  | _, _ => None
  end.

(** [compute_start_end_date()] of a rectangle at [x] of width [width]. *)
Definition compute_start_end_date (cfg : gantt_config) (x width : Q) : Z * Z :=
  let x_in_units := x / g_column_width cfg in
  let new_start_date := add (g_gantt_start cfg) (x_in_units * g_step cfg) (g_unit cfg) in
  let width_in_units := width / g_column_width cfg in
  let new_end_date := add new_start_date (width_in_units * g_step cfg) (g_unit cfg) in
  (new_start_date, new_end_date).

(** The scenario's chart: day view, one day per column, 45 px columns,
    starting at the task's start 2024-01-01. *)
Definition scenario_config (ign : Z -> bool) : gantt_config :=
  mk_gantt_config 45 1 Day (make_date 2024 0 1 0)%Z [] ign.

Definition scenario_task : bar_task := mk_bar_task "2024-01-01" "2024-01-05" 0.

End BarModel.

(* ------------------------------------------------------------------ *)
(** ** Task validation ([Gantt.setup_tasks]) *)
Module Tasks.
Import Snap Dates BarModel.

(** A task's [start] or [end]: a string, or a [Date] (possibly invalid). *)
Inductive date_value := DStr (s : string) | DDate (t : option Z).

(** The task fields the validation reads; [None] is [undefined]. *)
Record task := mk_task {
  t_start : option date_value;
  t_end : option date_value;
  t_duration : option string
}.

(** What [setup_tasks] keeps of a retained task: [_index], [_start], [_end]
    ([None] is an invalid date).  The dependency and id normalisation that
    follow the checks only rewrite fields of a task already retained. *)
Record resolved_task := mk_resolved_task {
  r_index : nat;
  r_start : option Z;
  r_end : option Z
}.

(** [!value] for a start or end: [undefined] and [''] are falsy, a [Date]
    object is truthy. *)
Definition truthy_date (v : option date_value) : bool :=
  match v with
  | None => false
  | Some (DStr s) => negb (String.eqb s "")
  | Some (DDate _) => true
  end.

(** Modelled from the spec: [date_utils.parse] reads a date string (or
    returns a [Date] as it is). *)
Definition parse (v : option date_value) : option Z :=
  match v with
  | Some (DStr s) => parse_iso_date s
  | Some (DDate t) => t
  | None => None
  end.

(** [s.split(c)] *)
Fixpoint split_on (c : ascii) (s : string) : list string :=
  match s with
  | EmptyString => [EmptyString]
  | String a s' =>
      if Ascii.eqb a c then EmptyString :: split_on c s'
      else match split_on c s' with
           | w :: ws => String a w :: ws
           | [] => [String a EmptyString]
           end
  end.

(** The [end] after the duration step: with no [end] and a [duration],
    [end] starts at [_start] and each parsable part of the duration is
    added to it. *)
Definition resolve_end (t : task) (start : option Z) : option date_value :=
  match t_end t, t_duration t with
  | None, Some dur =>
      Some (DDate (fold_left
                     (fun e tmp =>
                        match parse_duration tmp with
                        | Some (n, sc) => option_map (fun e => add e (inject_Z n) sc) e
                        | None => e
                        end)
                     (split_on " " dur) start))
  | e, _ => e
  end.

(** [date_utils.diff(task._end, task._start, 'year')]; [None] is [NaN]. *)
Definition year_diff (e s : option Z) : option Z :=
  match e, s with
  | Some e, Some s => Some (diff e s Year)
  | _, _ => None
  end.

(** "if hours is not set, assume the last day is full day". *)
Definition full_day_end (e : option Z) : option Z :=
  match e with
  | Some t => if (f_ms (to_fields t) =? 0)%Z then Some (add t 24 Hour) else Some t
  | None => None
  end.

(** The callback of [tasks.map((task, i) => ...)]: [None] is a task that
    is logged and dropped. *)
Definition setup_task (i : nat) (t : task) : option resolved_task :=
  if negb (truthy_date (t_start t)) then None else
  let s := parse (t_start t) in
  let e_v := resolve_end t s in
  if negb (truthy_date e_v) then None else
  let e := parse e_v in
  let keep := Some (mk_resolved_task i s (full_day_end e)) in
  match year_diff e s with
  | Some d => if (d <? 0)%Z then None else if (10 <? d)%Z then None else keep
  | None => keep
  end.

(** [setup_tasks(tasks)]: the [map] followed by [filter(t => t !== undefined)]. *)
Fixpoint setup_tasks_from (i : nat) (ts : list task) : list resolved_task :=
  match ts with
  | [] => []
  | t :: ts' =>
      match setup_task i t with
      | Some r => r :: setup_tasks_from (S i) ts'
      | None => setup_tasks_from (S i) ts'
      end
  end.

Definition setup_tasks (ts : list task) : list resolved_task := setup_tasks_from 0 ts.

(** A task lasting ten and a half years. *)
Definition long_task : task :=
  mk_task (Some (DStr "2020-01-01")) (Some (DStr "2030-07-01")) None.

End Tasks.


(* ------------------------------------------------------------------ *)
(** ** The dependency graph, seen from the dependents lookup *)
Module DepsGraph.
Import Deps.

(** Names of [Object.prototype] members: [dependency_map[k]] on the plain
    object [{}] finds an inherited value for these keys, which the
    association list [dep_map] does not represent.  The facts below are
    stated for ids that are not among them. *)
Definition object_prototype_keys : list string :=
  ["constructor"; "__proto__"; "toString"; "toLocaleString"; "valueOf";
   "hasOwnProperty"; "isPrototypeOf"; "propertyIsEnumerable";
   "__defineGetter__"; "__defineSetter__"; "__lookupGetter__"; "__lookupSetter__"].

Definition plain_key (k : string) : bool := negb (existsb (String.eqb k) object_prototype_keys).

(** Every id a task list names, as a task id or as a dependency. *)
Definition task_ids (ts : list dtask) : list string :=
  flat_map (fun t => t_id t :: t_dependencies t) ts.

(** [v] is reached from [u] along one or more edges of the map. *)
Inductive descends (m : dep_map) : string -> string -> Prop :=
  | desc_one u v : In v (succs m u) -> descends m u v
  | desc_more u v w : In v (succs m u) -> descends m v w -> descends m u w.

End DepsGraph.

(* ------------------------------------------------------------------ *)
(** ** Dragging bars and the progress handle ([bind_bar_events],
    [bind_bar_progress]) *)
Module Drag.
Import Deps Snap BarModel.

(** Which gesture the [mousedown] started: [is_dragging],
    [is_resizing_left], [is_resizing_right], or none of them. *)
Inductive drag_mode := Idle | Dragging | ResizingLeft | ResizingRight.

(** What [mousedown] stores on each dragged bar's [$bar]: [ox] and
    [owidth], its [getX()] and [getWidth()] at that moment.  The dragged
    bars are the grabbed one and, with [move_dependencies], the result of
    [get_all_dependent_tasks] for it. *)
Record drag_origin := mk_drag_origin { o_id : string; o_x : Q; o_width : Q }.

(** The body of [bars.forEach] in the [mousemove] handler for one dragged
    bar: [finaldx = get_snap_position(dx, $bar.ox)], then the update the
    gesture asks for.  [movable] is [!readonly && !readonly_dates]. *)
Definition drag_bar_frame (fuel : nat) (scfg : snap_config) (mode : drag_mode)
  (movable : bool) (parent : string) (dx : Q) (o : drag_origin) (bs : bars)
  : option bars :=
  match get_snap_position fuel scfg dx (o_x o) with
  | None => None
  | Some finaldx =>
      match get_bar bs (o_id o) with
      | None => None
      | Some self =>
          match mode with
          | ResizingLeft =>
              if String.eqb parent (o_id o) then
                update_bar_position bs self (Some (o_x o + finaldx)) (Some (o_width o - finaldx))
              else update_bar_position bs self (Some (o_x o + finaldx)) None
          | ResizingRight =>
              if String.eqb parent (o_id o) then
                update_bar_position bs self None (Some (o_width o + finaldx))
              else Some bs
          | Dragging =>
              if movable then update_bar_position bs self (Some (o_x o + finaldx)) None
              else Some bs
          | Idle => Some bs
          end
      end
  end.

Fixpoint drag_frame (fuel : nat) (scfg : snap_config) (mode : drag_mode) (movable : bool)
  (parent : string) (dx : Q) (group : list drag_origin) (bs : bars) : option bars :=
  match group with
  | [] => Some bs
  | o :: group' =>
      match drag_bar_frame fuel scfg mode movable parent dx o bs with
      | Some bs' => drag_frame fuel scfg mode movable parent dx group' bs'
      | None => None
      end
  end.

(** The [mousemove] handler of [bind_bar_events] for a mouse delta [dx]:
    nothing happens unless a gesture is in progress. *)
Definition drag_mousemove (fuel : nat) (scfg : snap_config) (mode : drag_mode)
  (movable : bool) (parent : string) (dx : Q) (group : list drag_origin) (bs : bars)
  : option bars :=
  match mode with
  | Idle => Some bs
  | _ => drag_frame fuel scfg mode movable parent dx group bs
  end.

(** [range_positions]: [[d, d + column_width]] for each ignored position. *)
Definition range_positions (ignored : list Q) (cw : Q) : list (Q * Q) :=
  map (fun d => (d, d + cw)) ignored.

(** Moving right: [while (k) { now_x = k[1]; k = range_positions.find(...) }]
    with [now_x >= begin && now_x < end]; at most [fuel] iterations. *)
Fixpoint push_right (fuel : nat) (rs : list (Q * Q)) (now_x : Q) : option Q :=
  match find (fun r => Qle_bool (fst r) now_x && Qltb now_x (snd r)) rs with
  | None => Some now_x
  | Some r =>
      match fuel with
      | O => None
      | S f => push_right f rs (snd r)
      end
  end.

(** Moving left: [now_x > begin && now_x <= end] sends [now_x] to [begin]. *)
Fixpoint push_left (fuel : nat) (rs : list (Q * Q)) (now_x : Q) : option Q :=
  match find (fun r => Qltb (fst r) now_x && Qle_bool now_x (snd r)) rs with
  | None => Some now_x
  | Some r =>
      match fuel with
      | O => None
      | S f => push_left f rs (fst r)
      end
  end.

(** What the progress handle's [mousedown] stores: [x_on_start] and, on
    [$bar_progress], [owidth], [min_dx] and [max_dx]. *)
Record progress_drag := mk_progress_drag {
  p_x_on_start : Q;
  p_owidth : Q;
  p_min_dx : Q;
  p_max_dx : Q
}.

Definition progress_mousedown (x_on_start bar_width progress_width : Q) : progress_drag :=
  mk_progress_drag x_on_start progress_width (- progress_width) (bar_width - progress_width).

(** The progress handle's [mousemove] at mouse position [now_x]: the new
    [width] of [$bar_progress] and the [finaldx] it stores. *)
Definition progress_mousemove (fuel : nat) (rs : list (Q * Q)) (st : progress_drag) (now_x : Q)
  : option (Q * Q) :=
  let moving_right := Qltb (p_x_on_start st) now_x in
  match (if moving_right then push_right fuel rs now_x else push_left fuel rs now_x) with
  | None => None
  | Some nx =>
      let dx := nx - p_x_on_start st in
      let dx1 := if Qltb (p_max_dx st) dx then p_max_dx st else dx in
      let dx2 := if Qltb dx1 (p_min_dx st) then p_min_dx st else dx1 in
      Some (p_owidth st + dx2, dx2)
  end.

End Drag.

(* ------------------------------------------------------------------ *)
(** ** Chart-level helpers of [Gantt] *)
Module Chart.
Import Snap Dates BarModel Tasks.

(** [group.getBBox()] of a bar: its [x] and [width]. *)
Record bbox := mk_bbox { bb_x : Q; bb_width : Q }.

(** [get_start_end_positions()]: [[min_start, max_start, max_end]] over the
    bars' boxes, starting from the first bar's box. *)
Definition get_start_end_positions (boxes : list bbox) : Q * Q * Q :=
  match boxes with
  | [] => (0, 0, 0)
  | b0 :: _ =>
      fold_left
        (fun acc b =>
           let '(min_start, max_start, max_end) := acc in
           (if Qltb (bb_x b) min_start then bb_x b else min_start,
            if Qltb max_start (bb_x b) then bb_x b else max_start,
            if Qltb max_end (bb_x b + bb_width b) then bb_x b + bb_width b else max_end))
        boxes (bb_x b0, bb_x b0, bb_x b0 + bb_width b0)
  end.

(** [<=] on two [Date]s compares their time values; an invalid date
    ([NaN], [None]) compares false. *)
Definition date_le (a b : option Z) : bool :=
  match a, b with
  | Some x, Some y => (x <=? y)%Z
  | _, _ => false
  end.

(** [get_oldest_starting_date()]: [new Date()] ([now]) without tasks,
    otherwise [reduce((prev, cur) => cur <= prev ? cur : prev)] over the
    tasks' [_start]. *)
Definition get_oldest_starting_date (now : Z) (tasks : list resolved_task) : option Z :=
  match map r_start tasks with
  | [] => Some now
  | s0 :: rest => fold_left (fun prev cur => if date_le cur prev then cur else prev) rest s0
  end.

(** [a < b] on two [Date]s. *)
Definition date_lt (a b : option Z) : bool :=
  match a, b with
  | Some x, Some y => (x <? y)%Z
  | _, _ => false
  end.

(** One iteration of the loop of [setup_gantt_dates] choosing
    [gantt_start] and [gantt_end] ([None] is [undefined]).  A retained
    task's [_start] and [_end] are [Date] objects, so the [task._start &&]
    and [task._end &&] guards always pass, for an invalid date as well. *)
Definition pick_start (gantt_start : option (option Z)) (t : resolved_task) : option (option Z) :=
  match gantt_start with
  | None => Some (r_start t)
  | Some g => if date_lt (r_start t) g then Some (r_start t) else gantt_start
  end.

Definition pick_end (gantt_end : option (option Z)) (t : resolved_task) : option (option Z) :=
  match gantt_end with
  | None => Some (r_end t)
  | Some g => if date_lt g (r_end t) then Some (r_end t) else gantt_end
  end.

(** [gantt_start] and [gantt_end] as [setup_gantt_dates] has them before
    [date_utils.start_of] and the padding: [new Date()] ([now]) for both
    without tasks; [None] where it throws ['Invalid gantt dates or unit']
    ([this.config.unit] is always set by [update_view_scale]). *)
Definition gantt_bounds (now : Z) (tasks : list resolved_task) : option (option Z * option Z) :=
  let init := match tasks with
              | [] => (Some (Some now), Some (Some now))
              | _ :: _ => (None, None)
              end in
  let '(gantt_start, gantt_end) :=
    fold_left (fun acc t => (pick_start (fst acc) t, pick_end (snd acc) t)) tasks init in
  match gantt_start, gantt_end with
  | Some s, Some e => Some (s, e)
  | _, _ => None
  end.

(** The geometry part of [get_date_info(date, last_date_info)]: the
    column's [date], [column_width] and [x]; the text fields come from
    [date_utils.format]. *)
Record date_info := mk_date_info { di_date : Z; di_column_width : Q; di_x : Q }.

Definition get_date_info (cw : Q) (date : Z) (last_date_info : option date_info) : date_info :=
  mk_date_info date cw
    (match last_date_info with
     | Some l => di_x l + di_column_width l
     | None => 0
     end).

(** [get_dates_to_draw()]: [this.dates.map] threading [last_date_info]. *)
Fixpoint dates_to_draw_from (cw : Q) (last_date_info : option date_info) (dates : list Z)
  : list date_info :=
  match dates with
  | [] => []
  | d :: ds =>
      let i := get_date_info cw d last_date_info in
      i :: dates_to_draw_from cw (Some i) ds
  end.

Definition get_dates_to_draw (cw : Q) (dates : list Z) : list date_info :=
  dates_to_draw_from cw None dates.

(** [s.replace(/c/g, r)] for a one-character pattern. *)
Fixpoint replace_all (c r : ascii) (s : string) : string :=
  match s with
  | EmptyString => EmptyString
  | String a s' => String (if Ascii.eqb a c then r else a) (replace_all c r s')
  end.

(** [sanitize(s)]: spaces, colons and dots become underscores. *)
Definition sanitize (s : string) : string :=
  replace_all "." "_" (replace_all ":" "_" (replace_all " " "_" s)).

End Chart.


(* ================================================================== *)
(** * Properties *)

Module DepsFacts.
Import Deps.

(** C3 (failing input).  On the diamond A -> B, A -> C, B -> D, C -> D,
    [get_all_dependent_tasks("A")] stops after four rounds and returns
    [D] twice: the second frontier [D, D] is only filtered against the
    frontier [B, C] that produced it. *)
Theorem diamond_dependents_repeat_D :
  get_all_dependent_tasks 4 (setup_dependencies diamond_tasks) "A"
  = Some ["B"; "C"; "D"; "D"].
Proof. vm_compute. reflexivity. Qed.

Lemma undefined_key_map :
  setup_dependencies undefined_key_tasks = [("undefined", ["X"])].
Proof. reflexivity. Qed.

(** From the frontiers [[undefined]] and [["X"]] the loop never stops. *)
Lemma undefined_key_loop (n : nat) :
  forall out,
    dependents_loop n (setup_dependencies undefined_key_tasks) [None] out = None /\
    dependents_loop n (setup_dependencies undefined_key_tasks) [Some "X"] out = None.
Proof.
  rewrite undefined_key_map.
  induction n as [|n IH]; intros out; [split; reflexivity|].
  split; cbn [dependents_loop]; apply IH.
Qed.

Lemma undefined_key_reachable (u : string) :
  reachable (setup_dependencies undefined_key_tasks) "A" u -> u = "A".
Proof.
  rewrite undefined_key_map.
  induction 1 as [|u v _ IH Hin]; [reflexivity|].
  subst u. destruct Hin.
Qed.

(** C10 (failing input).  The graph reachable from task [A] is acyclic
    ([A] has no dependents), yet when another task lists the id
    ["undefined"] as a dependency, [get_all_dependent_tasks("A")] loops
    forever: the missing entry of [A] yields [undefined], whose lookup
    reads the key ["undefined"]. *)
Theorem undefined_key_never_stops :
  acyclic_from (setup_dependencies undefined_key_tasks) "A" /\
  forall fuel, get_all_dependent_tasks fuel (setup_dependencies undefined_key_tasks) "A" = None.
Proof.
  split.
  - exists (fun _ => 0%nat). intros u v Hr Hin.
    apply undefined_key_reachable in Hr. subst u.
    rewrite undefined_key_map in Hin. destruct Hin.
  - intros [|fuel]; [reflexivity|].
    unfold get_all_dependent_tasks. cbn [dependents_loop].
    replace (dependents_loop fuel (setup_dependencies undefined_key_tasks) _ _) with
      (@None (list jsid)); [reflexivity|].
    symmetry. rewrite undefined_key_map.
    pose proof (undefined_key_loop fuel [None]) as [H _].
    rewrite undefined_key_map in H. exact H.
Qed.

End DepsFacts.

Module SnapFacts.
Import Snap.

Lemma Qltb_iff (a b : Q) : Qltb a b = true <-> a < b.
Proof.
  unfold Qltb. rewrite negb_true_iff. split; intros H.
  - apply Qnot_le_lt. intros Hle. apply Qle_bool_iff in Hle. congruence.
  - destruct (Qle_bool b a) eqn:E; [|reflexivity].
    apply Qle_bool_iff in E. exfalso. apply (Qlt_not_le a b H E).
Qed.

Lemma Qle_bool_compat (a a' b b' : Q) : a == a' -> b == b' -> Qle_bool a b = Qle_bool a' b'.
Proof.
  intros Ha Hb. destruct (Qle_bool a b) eqn:E1, (Qle_bool a' b') eqn:E2; try reflexivity.
  - apply Qle_bool_iff in E1. rewrite Ha, Hb in E1. apply Qle_bool_iff in E1. congruence.
  - apply Qle_bool_iff in E2. rewrite <- Ha, <- Hb in E2. apply Qle_bool_iff in E2. congruence.
Qed.

Lemma Qltb_compat (a a' b b' : Q) : a == a' -> b == b' -> Qltb a b = Qltb a' b'.
Proof. intros Ha Hb. unfold Qltb. rewrite (Qle_bool_compat b b' a a'); auto. Qed.

Lemma get_ignored_region_compat ig cw p p' drn :
  p == p' -> get_ignored_region ig cw p drn = get_ignored_region ig cw p' drn.
Proof.
  intros Hp. unfold get_ignored_region.
  destruct (Z.eqb drn 1); apply filter_ext; intros val;
    rewrite (Qle_bool_compat _ _ _ _ (Qeq_refl _) Hp) || idtac;
    rewrite (Qltb_compat _ _ _ _ (Qeq_refl _) Hp) || idtac;
    rewrite (Qle_bool_compat _ _ _ _ Hp (Qeq_refl _)) || idtac;
    rewrite (Qltb_compat _ _ _ _ Hp (Qeq_refl _)) || idtac;
    reflexivity.
Qed.

(** C9.  Looking forward ([drn = 1]) an ignored column start [s] matches
    the pixel [p] exactly when [s < p <= s + column_width]; looking
    backward exactly when [s <= p < s + column_width]. *)
Theorem get_ignored_region_intervals (ignored : list Q) (cw p s : Q) :
  (In s (get_ignored_region ignored cw p 1) <-> In s ignored /\ s < p /\ p <= s + cw) /\
  (In s (get_ignored_region ignored cw p (-1)) <-> In s ignored /\ s <= p /\ p < s + cw).
Proof.
  unfold get_ignored_region; simpl Z.eqb.
  rewrite !filter_In, !andb_true_iff, !Qltb_iff, !Qle_bool_iff. tauto.
Qed.

(** C2 (failing input).  In the day view (45 px columns, snapping to one
    day) a drag of 40 px with no ignored column snaps to 0 px, although
    the nearest multiple of 45 is 45: the rounding test
    [rem < inc * 2] holds for every remainder. *)
Theorem snap_40px_day_view :
  get_snap_position 10 (day_view []) 40 0 = Some 0.
Proof. vm_compute. reflexivity. Qed.

(** C5 (counterexample).  Three days per 45 px column, snapping to two
    days (30 px), columns at 0 and 45 ignored: snapping 30 px gives 75 px,
    and snapping 75 px gives 60 px. *)
Theorem snap_not_idempotent_three_day :
  match get_snap_position 10 (three_day_view [0; 45]) 30 0 with
  | Some r1 =>
      r1 == 75 /\
      match get_snap_position 10 (three_day_view [0; 45]) r1 0 with
      | Some r2 => r2 == 60
      | None => False
      end
  | None => False
  end.
Proof. vm_compute. split; reflexivity. Qed.

Lemma Qfloor_compat (p q : Q) : p == q -> Qfloor p = Qfloor q.
Proof.
  intros H. apply Z.le_antisymm; apply Qfloor_resp_le; rewrite H; apply Qle_refl.
Qed.

Lemma js_trunc_compat (p q : Q) : p == q -> js_trunc p = js_trunc q.
Proof.
  intros H. unfold js_trunc.
  rewrite (Qle_bool_compat 0 0 p q (Qeq_refl 0) H).
  destruct (Qle_bool 0 q).
  - apply Qfloor_compat; exact H.
  - f_equal. apply Qfloor_compat. rewrite H. reflexivity.
Qed.

Lemma js_trunc_int (q : Q) (z : Z) : q == inject_Z z -> js_trunc q = z.
Proof.
  intros H. rewrite (js_trunc_compat q (inject_Z z) H). unfold js_trunc.
  destruct (Qle_bool 0 (inject_Z z)).
  - apply Qfloor_Z.
  - rewrite <- inject_Z_opp, Qfloor_Z. lia.
Qed.

Lemma js_rem_compat (a b inc : Q) : a == b -> js_rem a inc == js_rem b inc.
Proof.
  intros H. unfold js_rem.
  rewrite (js_trunc_compat (a / inc) (b / inc)) by (rewrite H; reflexivity).
  rewrite H. reflexivity.
Qed.

Lemma snap_round_compat (inc a b : Q) : a == b -> snap_round inc a == snap_round inc b.
Proof.
  intros H. unfold snap_round. cbv zeta.
  rewrite (Qltb_compat (js_rem a inc) (js_rem b inc) (inc * 2) (inc * 2)
             (js_rem_compat a b inc H) (Qeq_refl _)).
  rewrite (js_rem_compat a b inc H), H. reflexivity.
Qed.

(** The rounding step always lands on a whole number of increments. *)
Lemma snap_round_multiple (inc dx : Q) : exists t : Z, snap_round inc dx == inject_Z t * inc.
Proof.
  unfold snap_round, js_rem. cbv zeta.
  destruct (Qltb _ _).
  - exists (js_trunc (dx / inc)). ring.
  - exists (js_trunc (dx / inc) + 1)%Z. rewrite inject_Z_plus. ring.
Qed.

(** A whole number of increments is left as it is. *)
Lemma snap_round_of_multiple (inc : Q) (m : Z) :
  0 < inc -> snap_round inc (inject_Z m * inc) == inject_Z m * inc.
Proof.
  intros Hinc.
  assert (Hr : js_rem (inject_Z m * inc) inc == 0).
  { unfold js_rem.
    rewrite (js_trunc_int (inject_Z m * inc / inc) m).
    - ring.
    - field. intros E. rewrite E in Hinc. apply (Qlt_irrefl 0 Hinc). }
  unfold snap_round. cbv zeta.
  rewrite (Qltb_compat _ 0 (inc * 2) (inc * 2) Hr (Qeq_refl _)).
  replace (Qltb 0 (inc * 2)) with true by (symmetry; apply Qltb_iff; lra).
  rewrite Hr. ring.
Qed.

Lemma skip_ignored_nil (fuel : nat) (cfg : snap_config) (drn : Z) (pos : Q) :
  skip_ignored fuel cfg drn pos [] = Some pos.
Proof. destruct fuel; reflexivity. Qed.

(** The ignored-region loop of [get_snap_position] ends on a position a
    whole number of columns away in the direction of travel, which either
    lies in no ignored region, or lies in one while the next column in
    the direction of travel does not (the loop then ran at least once). *)
Lemma skip_ignored_spec (cfg : snap_config) (drn : Z) :
  forall fuel pos p,
  skip_ignored fuel cfg drn pos
    (get_ignored_region (ignored_positions cfg) (column_width cfg) pos drn) = Some p ->
  (exists k : nat, p == pos + inject_Z (Z.of_nat k) * (column_width cfg * inject_Z drn)) /\
  (get_ignored_region (ignored_positions cfg) (column_width cfg) p drn = [] \/
   (get_ignored_region (ignored_positions cfg) (column_width cfg) p drn <> [] /\
    get_ignored_region (ignored_positions cfg) (column_width cfg)
      (p + column_width cfg * inject_Z drn) drn = [] /\
    (0 < fuel)%nat)).
Proof.
  induction fuel as [|f IH]; intros pos p H; cbn [skip_ignored] in H.
  - destruct (get_ignored_region _ _ pos drn) eqn:E; [|discriminate].
    injection H as <-. split; [exists 0%nat; simpl; ring | left; exact E].
  - destruct (get_ignored_region _ _ pos drn) as [|a l] eqn:E.
    + injection H as <-. split; [exists 0%nat; simpl; ring | left; exact E].
    + cbv zeta in H.
      destruct (get_ignored_region _ _ (pos + column_width cfg * inject_Z drn) drn)
        as [|a1 l1] eqn:E1.
      * rewrite skip_ignored_nil in H. injection H as <-.
        split; [exists 0%nat; simpl; ring|].
        right. split; [|split; [|lia]].
        -- rewrite (get_ignored_region_compat _ _ _ pos) by ring. rewrite E. discriminate.
        -- rewrite (get_ignored_region_compat _ _ _ (pos + column_width cfg * inject_Z drn))
             by ring.
           exact E1.
      * rewrite <- E1 in H. apply IH in H.
        destruct H as [[k Hk] Hend]. split.
        -- exists (S k). rewrite Hk, Nat2Z.inj_succ, <- Z.add_1_r, inject_Z_plus. ring.
        -- destruct Hend as [Hend | [H1 [H2 _]]]; [left; exact Hend|].
           right. split; [exact H1|]. split; [exact H2|lia].
Qed.

(** C5 (as amended).  When the column width is a whole number [n] of snap
    increments ([unit_length = n]), snapping the snapped delta again
    returns it unchanged. *)
Theorem snap_idempotent_whole_columns (cfg : snap_config) (ul : Q) (n : positive)
  (fuel : nat) (dx ox r : Q) :
  0 < column_width cfg ->
  unit_length cfg = Some ul -> ul == inject_Z (Z.pos n) ->
  get_snap_position fuel cfg dx ox = Some r ->
  exists r', get_snap_position fuel cfg r ox = Some r' /\ r' == r.
Proof.
  intros Hcw Hul Hn H.
  unfold get_snap_position in *. rewrite Hul in *. cbv zeta in H |- *.
  set (inc := column_width cfg / ul) in *.
  assert (Hinc : 0 < inc).
  { unfold inc. rewrite Hn. apply Qlt_shift_div_l; [reflexivity|]. lra. }
  assert (Hcwinc : column_width cfg == inject_Z (Z.pos n) * inc).
  { unfold inc. rewrite Hn. field. discriminate. }
  destruct (snap_round_multiple inc dx) as [t Ht].
  set (fdx := snap_round inc dx) in *.
  remember (if Qltb 0 fdx then 1%Z else (-1)%Z) as drn eqn:Hdrn0.
  destruct (skip_ignored fuel cfg drn (ox + fdx) _) as [q|] eqn:Hs; [|discriminate].
  injection H as <-.
  apply skip_ignored_spec in Hs. destruct Hs as [[k Hk] Hend].
  assert (Hm : q - ox == inject_Z (t + Z.of_nat k * Z.pos n * drn) * inc).
  { rewrite Hk, Ht, !inject_Z_plus, !inject_Z_mult, Hcwinc. ring. }
  assert (Hround : snap_round inc (q - ox) == q - ox).
  { rewrite (snap_round_compat inc _ _ Hm), Hm. apply snap_round_of_multiple, Hinc. }
  assert (Hsign : (if Qltb 0 (snap_round inc (q - ox)) then 1%Z else (-1)%Z) = drn).
  { rewrite (Qltb_compat 0 0 _ (q - ox) (Qeq_refl 0) Hround).
    assert (P0 : 0 <= inject_Z (Z.of_nat k) * column_width cfg).
    { apply Qmult_le_0_compat; [|lra].
      change 0 with (inject_Z 0). rewrite <- Zle_Qle. lia. }
    assert (E : q - ox == fdx + inject_Z (Z.of_nat k) * column_width cfg * inject_Z drn)
      by (rewrite Hk; ring).
    set (X := inject_Z (Z.of_nat k) * column_width cfg) in *.
    subst drn. destruct (Qltb 0 fdx) eqn:Ef.
    - change (inject_Z 1) with 1 in E. apply Qltb_iff in Ef.
      replace (Qltb 0 (q - ox)) with true; [reflexivity|].
      symmetry. apply Qltb_iff. rewrite E. lra.
    - assert (Ef' : fdx <= 0).
      { apply Qnot_lt_le. intros Hlt. apply Qltb_iff in Hlt. congruence. }
      destruct (Qltb 0 (q - ox)) eqn:E2; [|reflexivity].
      change (inject_Z (-1)) with (-1) in E.
      apply Qltb_iff in E2. rewrite E in E2. lra. }
  rewrite Hsign.
  assert (Hpos : ox + snap_round inc (q - ox) == q) by (rewrite Hround; ring).
  rewrite (get_ignored_region_compat _ _ _ _ _ Hpos).
  destruct Hend as [Hq | [Hq [Hq1 Hf]]].
  - rewrite Hq, skip_ignored_nil.
    eexists; split; [reflexivity|]. rewrite Hround. ring.
  - destruct fuel as [|f]; [lia|].
    destruct (get_ignored_region _ _ q drn) as [|a l] eqn:Eq; [congruence|].
    cbn [skip_ignored]. cbv zeta.
    rewrite (get_ignored_region_compat _ _ _ (q + column_width cfg * inject_Z drn))
      by (rewrite Hpos; reflexivity).
    rewrite Hq1, skip_ignored_nil.
    eexists; split; [reflexivity|]. rewrite Hround. ring.
Qed.

Lemma snap_idempotent_whole_columns_witness :
  exists r', get_snap_position 10 (day_view [0]) 45 0 = Some r' /\ r' == 45.
Proof.
  apply (snap_idempotent_whole_columns (day_view [0]) 1 1 10 50 0 45);
    vm_compute; reflexivity.
Defined.

End SnapFacts.

(* ------------------------------------------------------------------ *)
(** * Facts about bars *)
Module BarFacts.
Import Snap Dates BarModel SnapFacts.

Lemma fold_and_forallb (f : Q -> bool) (xs : list Q) (b : bool) :
  fold_left (fun prev curr => prev && f curr) xs b = b && forallb f xs.
Proof.
  revert b; induction xs as [|c xs IH]; intros b; simpl.
  - now rewrite andb_true_r.
  - rewrite IH. now rewrite andb_assoc.
Qed.

Lemma dependency_xs_spec (bs : bars) (deps : list string) :
  (forall d, In d deps -> exists b, get_bar bs d = Some b) ->
  exists xs, dependency_xs bs deps = Some xs /\
    (forall c, In c xs <-> exists d b, In d deps /\ get_bar bs d = Some b /\ b_x b = c).
Proof.
  induction deps as [|d deps IH]; intros Hall; simpl.
  - exists []. split; [reflexivity|]. intros c; split.
    + intros [].
    + intros (d & b & [] & _).
  - destruct (Hall d (or_introl eq_refl)) as [b Hb]. rewrite Hb.
    destruct IH as [xs [Hxs Hin]].
    { intros d' Hd'. apply Hall. now right. }
    rewrite Hxs. exists (b_x b :: xs). split; [reflexivity|].
    intros c; split.
    + intros [<-|Hc].
      * exists d, b. auto.
      * destruct (proj1 (Hin c) Hc) as (d' & b' & H1 & H2 & H3).
        exists d', b'. auto.
    + intros (d' & b' & [<-|H1] & H2 & H3).
      * left. rewrite Hb in H2. injection H2 as <-. exact H3.
      * right. apply Hin. exists d', b'. auto.
Qed.

(** The width rule of [update_bar_position]: a given width is used when it
    is positive. *)
Lemma update_bar_position_accepts (bs : bars) (self : bar) (nx : Q) (w : option Q) xs :
  dependency_xs bs (b_dependencies self) = Some xs ->
  (forall c, In c xs -> c <= nx) ->
  update_bar_position bs self (Some nx) w =
  Some (set_bar bs (mk_bar (b_id self) nx
          (match w with
           | Some w' => if Qltb 0 w' then w' else b_width self
           | None => b_width self
           end) (b_dependencies self))).
Proof.
  intros Hxs Hle. unfold update_bar_position. rewrite Hxs.
  rewrite fold_and_forallb. simpl.
  replace (forallb (fun curr => Qle_bool curr nx) xs) with true.
  - destruct w as [w'|]; [destruct (Qltb 0 w')|]; reflexivity.
  - symmetry. apply forallb_forall. intros c Hc. apply Qle_bool_iff. auto.
Qed.

Lemma update_bar_position_rejects (bs : bars) (self : bar) (nx : Q) (w : option Q) xs c :
  dependency_xs bs (b_dependencies self) = Some xs ->
  In c xs -> nx < c ->
  update_bar_position bs self (Some nx) w = Some bs.
Proof.
  intros Hxs Hc Hlt. unfold update_bar_position. rewrite Hxs.
  rewrite fold_and_forallb. simpl.
  replace (forallb (fun curr => Qle_bool curr nx) xs) with false; [reflexivity|].
  symmetry. apply not_true_iff_false. intros Hf.
  rewrite forallb_forall in Hf. specialize (Hf c Hc).
  apply Qle_bool_iff in Hf. lra.
Qed.

Lemma forward_region_In (ignored : list Q) (cw p s : Q) :
  In s (get_ignored_region ignored cw p 1) <-> In s ignored /\ s < p /\ p <= s + cw.
Proof.
  unfold get_ignored_region; simpl Z.eqb.
  rewrite filter_In, andb_true_iff, Qltb_iff, Qle_bool_iff. tauto.
Qed.

Lemma filter_length_mono (f g : Q -> bool) (l : list Q) :
  (forall v, In v l -> g v = true -> f v = true) ->
  (List.length (filter g l) <= List.length (filter f l))%nat.
Proof.
  induction l as [|v l IH]; intros H; simpl; [lia|].
  assert (IH' := IH (fun u Hu => H u (or_intror Hu))).
  destruct (g v) eqn:Eg.
  - rewrite (H v (or_introl eq_refl) Eg). simpl. lia.
  - destruct (f v); simpl; lia.
Qed.

Lemma filter_length_strict (f g : Q -> bool) (l : list Q) (v : Q) :
  (forall u, In u l -> g u = true -> f u = true) ->
  In v l -> f v = true -> g v = false ->
  (List.length (filter g l) < List.length (filter f l))%nat.
Proof.
  induction l as [|u l IH]; intros H Hv Hf Hg; [destruct Hv|].
  assert (Hmono := filter_length_mono f g l (fun w Hw => H w (or_intror Hw))).
  destruct Hv as [<-|Hv]; simpl.
  - rewrite Hf, Hg. simpl. lia.
  - assert (HIH := IH (fun w Hw => H w (or_intror Hw)) Hv Hf Hg).
    destruct (g u) eqn:Eg.
    + rewrite (H u (or_introl eq_refl) Eg). simpl. lia.
    + destruct (f u); simpl; lia.
Qed.

Lemma inject_Z_succ_nat (k : nat) :
  inject_Z (Z.of_nat (S k)) == inject_Z (Z.of_nat k) + 1.
Proof. rewrite Nat2Z.inj_succ. unfold Z.succ. rewrite inject_Z_plus. reflexivity. Qed.

(** The loop of [calculate_progress_width], run with enough fuel: the
    number of ignored columns ending at or after the progress end bounds
    the iterations; it stops at the first shift by whole columns that
    leaves every forward interval. *)
Lemma push_progress_spec (cfg : gantt_config) (x : Q) (n : nat) :
  0 < g_column_width cfg ->
  forall pw,
  (List.length (filter (fun v => Qle_bool (x + pw) (v + g_column_width cfg))
                  (g_ignored_positions cfg)) <= n)%nat ->
  exists k r, push_progress n cfg x pw = Some r /\
    r == pw + inject_Z (Z.of_nat k) * g_column_width cfg /\
    (forall val, In val (g_ignored_positions cfg) ->
       ~ (val < x + r /\ x + r <= val + g_column_width cfg)) /\
    (forall j, (j < k)%nat -> exists val, In val (g_ignored_positions cfg) /\
       val < x + pw + inject_Z (Z.of_nat j) * g_column_width cfg /\
       x + pw + inject_Z (Z.of_nat j) * g_column_width cfg <= val + g_column_width cfg).
Proof.
  intros Hcw. induction n as [|n IH]; intros pw Hn; simpl push_progress;
    destruct (get_ignored_region (g_ignored_positions cfg) (g_column_width cfg) (x + pw) 1)
      as [|v rest] eqn:E.
  - exists O, pw. split; [reflexivity|]. split; [simpl; ring|]. split.
    + intros val Hval Hin.
      assert (Hr := proj2 (forward_region_In (g_ignored_positions cfg) (g_column_width cfg)
                             (x + pw) val) (conj Hval Hin)).
      rewrite E in Hr. exact Hr.
    + intros j Hj. lia.
  - exfalso. assert (Hv : In v (get_ignored_region (g_ignored_positions cfg)
                                  (g_column_width cfg) (x + pw) 1)) by (rewrite E; now left).
    apply forward_region_In in Hv. destruct Hv as (Hv & _ & Hle).
    assert (Hpos : In v (filter (fun v => Qle_bool (x + pw) (v + g_column_width cfg))
                               (g_ignored_positions cfg))).
    { apply filter_In. split; [exact Hv|]. now apply Qle_bool_iff. }
    destruct (filter _ _); [destruct Hpos|]. simpl in Hn. lia.
  - exists O, pw. split; [reflexivity|]. split; [simpl; ring|]. split.
    + intros val Hval Hin.
      assert (Hr := proj2 (forward_region_In (g_ignored_positions cfg) (g_column_width cfg)
                             (x + pw) val) (conj Hval Hin)).
      rewrite E in Hr. exact Hr.
    + intros j Hj. lia.
  - assert (Hv : In v (get_ignored_region (g_ignored_positions cfg)
                        (g_column_width cfg) (x + pw) 1)) by (rewrite E; now left).
    apply forward_region_In in Hv. destruct Hv as (Hv & Hlt & Hle).
    assert (Hdec : (List.length (filter (fun u => Qle_bool (x + (pw + g_column_width cfg))
                                                 (u + g_column_width cfg))
                                  (g_ignored_positions cfg))
                    < List.length (filter (fun u => Qle_bool (x + pw) (u + g_column_width cfg))
                                  (g_ignored_positions cfg)))%nat).
    { apply (filter_length_strict _ _ _ v); [| exact Hv | |].
      - intros u _ Hu. apply Qle_bool_iff in Hu. apply Qle_bool_iff. lra.
      - now apply Qle_bool_iff.
      - apply not_true_iff_false. intros Hu. apply Qle_bool_iff in Hu. lra. }
    destruct (IH (pw + g_column_width cfg)) as (k & r & Hr & Heq & Hout & Hin); [lia|].
    exists (S k), r. split; [exact Hr|]. split; [|split; [exact Hout|]].
    + rewrite inject_Z_succ_nat, Heq. ring.
    + intros [|j] Hj.
      * exists v. split; [exact Hv|].
        assert (H0 : x + pw + inject_Z (Z.of_nat 0) * g_column_width cfg == x + pw)
          by (simpl; ring).
        rewrite H0. split; assumption.
      * destruct (Hin j ltac:(lia)) as (val & Hval & H1 & H2).
        exists val. split; [exact Hval|].
        assert (Hs : x + pw + inject_Z (Z.of_nat (S j)) * g_column_width cfg ==
                     x + (pw + g_column_width cfg) + inject_Z (Z.of_nat j) * g_column_width cfg)
          by (rewrite inject_Z_succ_nat; ring).
        rewrite Hs. split; assumption.
Qed.

Lemma filter_length_bound (f : Q -> bool) (l : list Q) :
  (List.length (filter f l) <= List.length l)%nat.
Proof. induction l as [|v l IH]; simpl; [lia|]. destruct (f v); simpl; lia. Qed.

(** C4.  With positive columns, the loop of [calculate_progress_width]
    stops (after at most one iteration per ignored column); the progress
    width it returns is the width computed before the loop shifted forward
    by [k] whole columns, each of the [k] shifts being made from an end
    lying in a forward ignored interval [(val, val + column_width]], and the
    final end [x + progress_width] lies in none of them. *)
Theorem progress_end_outside_ignored (cfg : gantt_config) (x width progress : Q) :
  0 < g_column_width cfg ->
  exists pw k,
    calculate_progress_width (List.length (g_ignored_positions cfg)) cfg x width progress
      = Some pw /\
    pw == unpushed_progress_width cfg x width progress
          + inject_Z (Z.of_nat k) * g_column_width cfg /\
    (forall val, In val (g_ignored_positions cfg) ->
       ~ (val < x + pw /\ x + pw <= val + g_column_width cfg)) /\
    (forall j, (j < k)%nat -> exists val, In val (g_ignored_positions cfg) /\
       val < x + unpushed_progress_width cfg x width progress
             + inject_Z (Z.of_nat j) * g_column_width cfg /\
       x + unpushed_progress_width cfg x width progress
         + inject_Z (Z.of_nat j) * g_column_width cfg <= val + g_column_width cfg).
Proof.
  intros Hcw. unfold calculate_progress_width.
  destruct (push_progress_spec cfg x (List.length (g_ignored_positions cfg)) Hcw
              (unpushed_progress_width cfg x width progress) (filter_length_bound _ _))
    as (k & r & Hr & Heq & Hout & Hin).
  exists r, k. auto.
Qed.

Lemma progress_end_outside_ignored_witness :
  exists pw k,
    calculate_progress_width 2 (mk_gantt_config 45 1 Day 0%Z [0; 45] (fun _ => false))
      0 135 50 = Some pw /\
    pw == unpushed_progress_width (mk_gantt_config 45 1 Day 0%Z [0; 45] (fun _ => false))
            0 135 50 + inject_Z (Z.of_nat k) * 45 /\
    (forall val, In val [0; 45] -> ~ (val < 0 + pw /\ 0 + pw <= val + 45)) /\
    (forall j, (j < k)%nat -> exists val, In val [0; 45] /\
       val < 0 + unpushed_progress_width (mk_gantt_config 45 1 Day 0%Z [0; 45] (fun _ => false))
                   0 135 50 + inject_Z (Z.of_nat j) * 45 /\
       0 + unpushed_progress_width (mk_gantt_config 45 1 Day 0%Z [0; 45] (fun _ => false))
             0 135 50 + inject_Z (Z.of_nat j) * 45 <= val + 45).
Proof.
  exact (progress_end_outside_ignored (mk_gantt_config 45 1 Day 0%Z [0; 45] (fun _ => false))
           0 135 50 ltac:(vm_compute; reflexivity)).
Defined.

(** C1 (counterexample).  [B] depends on [A], whose rectangle spans 0..90;
    moving [B] to x = 45, before [A]'s right edge, is applied: only the
    predecessors' left edges are compared with the new x. *)
Example move_before_predecessor_end_applied :
  update_bar_position pred_succ_bars (mk_bar "B" 100 45 ["A"]) (Some 45) None
  = Some [mk_bar "A" 0 90 []; mk_bar "B" 45 45 ["A"]]
  /\ 45 < 0 + 90.
Proof. split; [vm_compute; reflexivity | lra]. Qed.

(** C1 (amended).  When every predecessor has a bar, a move to [nx] is
    applied exactly when [nx] is at least the current left edge [x] of every
    predecessor's bar (the width is then also set when a positive one is
    given); when [nx] lies left of some predecessor's left edge, nothing
    changes, neither [x] nor [width]. *)
Theorem update_bar_position_left_edges (bs : bars) (self : bar) (nx : Q) (w : option Q) :
  (forall d, In d (b_dependencies self) -> exists b, get_bar bs d = Some b) ->
  ((forall d b, In d (b_dependencies self) -> get_bar bs d = Some b -> b_x b <= nx) ->
   update_bar_position bs self (Some nx) w =
   Some (set_bar bs (mk_bar (b_id self) nx
           (match w with
            | Some w' => if Qltb 0 w' then w' else b_width self
            | None => b_width self
            end) (b_dependencies self))))
  /\
  ((exists d b, In d (b_dependencies self) /\ get_bar bs d = Some b /\ nx < b_x b) ->
   update_bar_position bs self (Some nx) w = Some bs).
Proof.
  intros Hall. destruct (dependency_xs_spec bs _ Hall) as [xs [Hxs Hin]].
  split.
  - intros Hle. apply (update_bar_position_accepts _ _ _ _ xs Hxs).
    intros c Hc. destruct (proj1 (Hin c) Hc) as (d & b & H1 & H2 & <-).
    exact (Hle d b H1 H2).
  - intros (d & b & H1 & H2 & H3).
    apply (update_bar_position_rejects _ _ _ _ xs (b_x b) Hxs); [|exact H3].
    apply Hin. exists d, b. auto.
Qed.

Lemma update_bar_position_left_edges_witness :
  update_bar_position pred_succ_bars (mk_bar "B" 100 45 ["A"]) (Some 100) None =
  Some (set_bar pred_succ_bars (mk_bar "B" 100 45 ["A"])).
Proof.
  refine (proj1 (update_bar_position_left_edges pred_succ_bars
                   (mk_bar "B" 100 45 ["A"]) 100 None _) _).
  - intros d [<-|[]]. eexists. reflexivity.
  - intros d b [<-|[]] Hb. vm_compute in Hb. injection Hb as <-.
    vm_compute. discriminate.
Defined.

Lemma walk_days_step (f : nat) (cfg : gantt_config) (d e t a : Z) :
  (d <? e)%Z = true ->
  walk_days (S f) cfg d e t a =
  walk_days f cfg (d + ms_per_day)%Z e (t + 1)%Z
            (if g_is_ignored cfg d then a else (a + 1)%Z).
Proof. intros H. simpl. now rewrite H. Qed.

Lemma walk_days_stop (f : nat) (cfg : gantt_config) (d e t a : Z) :
  (d <? e)%Z = false -> walk_days f cfg d e t a = Some (t, a).
Proof. intros H. destruct f; simpl; now rewrite H. Qed.

(** C6.  The task 2024-01-01 .. 2024-01-05 in the day view (step 1,
    45 px columns) on a chart starting at the task's start: whichever days
    are ignored, its bar is at x = 0 and is 4 * 45 = 180 px wide.  The
    width counts all four days of the walk, ignored or not. *)
Theorem scenario_bar_geometry (ign : Z -> bool) :
  parse_iso_date (bt_start scenario_task) = Some (g_gantt_start (scenario_config ign)) /\
  exists g, prepare_values 10 (scenario_config ign) scenario_task = Some g /\
    g_x g == 0 /\ g_width g == 4 * 45 /\ g_width g == 180.
Proof.
  split; [vm_compute; reflexivity|].
  assert (Hs : parse_iso_date (bt_start scenario_task) = Some 1704067200000%Z)
    by (vm_compute; reflexivity).
  assert (He : parse_iso_date (bt_end scenario_task) = Some 1704412800000%Z)
    by (vm_compute; reflexivity).
  unfold prepare_values. rewrite Hs, He.
  unfold compute_duration.
  do 4 (rewrite walk_days_step by (vm_compute; reflexivity)).
  rewrite walk_days_stop by (vm_compute; reflexivity).
  cbn iota. simpl g_is_ignored.
  repeat match goal with |- context [ign ?d] => destruct (ign d) end.
  all: vm_compute; eexists; repeat split.
Qed.

End BarFacts.

(* ------------------------------------------------------------------ *)
(** * Facts about dates and the pixel mapping *)
Module DateFacts.
Import Snap Dates BarModel SnapFacts.
Local Open Scope Z_scope.

Lemma day_of_year_bounds (doe : Z) : 0 <= doe <= 146096 -> 0 <= day_of_year doe <= 365.
Proof.
  intros H. unfold day_of_year, year_of_era. cbv zeta.
  pose proof (Z.div_mod doe 1460 ltac:(lia)). pose proof (Z.mod_pos_bound doe 1460 ltac:(lia)).
  pose proof (Z.div_mod doe 36524 ltac:(lia)). pose proof (Z.mod_pos_bound doe 36524 ltac:(lia)).
  pose proof (Z.div_mod doe 146096 ltac:(lia)). pose proof (Z.mod_pos_bound doe 146096 ltac:(lia)).
  set (a := doe / 1460) in *. set (b := doe / 36524) in *. set (c := doe / 146096) in *.
  set (n := doe - a + b - c).
  pose proof (Z.div_mod n 365 ltac:(lia)). pose proof (Z.mod_pos_bound n 365 ltac:(lia)).
  set (y := n / 365) in *.
  pose proof (Z.div_mod y 4 ltac:(lia)). pose proof (Z.mod_pos_bound y 4 ltac:(lia)).
  pose proof (Z.div_mod y 100 ltac:(lia)). pose proof (Z.mod_pos_bound y 100 ltac:(lia)).
  lia.
Qed.

Lemma civil_from_days_bounds (z y m d : Z) :
  civil_from_days z = (y, m, d) -> 1 <= m <= 12 /\ 1 <= d.
Proof.
  unfold civil_from_days. cbv zeta. intros H.
  pose proof (f_equal snd H) as Hd. pose proof (f_equal (fun p => snd (fst p)) H) as Hm.
  cbv beta iota delta [fst snd] in Hd, Hm. clear H.
  assert (Hdoe : 0 <= z + 719468 - (z + 719468) / 146097 * 146097 <= 146096).
  { pose proof (Z.div_mod (z + 719468) 146097 ltac:(lia)).
    pose proof (Z.mod_pos_bound (z + 719468) 146097 ltac:(lia)). lia. }
  set (doe := z + 719468 - (z + 719468) / 146097 * 146097) in *.
  pose proof (day_of_year_bounds doe Hdoe).
  set (doy := day_of_year doe) in *. unfold month_index in *.
  pose proof (Z.div_mod (5 * doy + 2) 153 ltac:(lia)).
  pose proof (Z.mod_pos_bound (5 * doy + 2) 153 ltac:(lia)).
  set (mp := (5 * doy + 2) / 153) in *.
  pose proof (Z.div_mod (153 * mp + 2) 5 ltac:(lia)).
  pose proof (Z.mod_pos_bound (153 * mp + 2) 5 ltac:(lia)).
  set (q := (153 * mp + 2) / 5) in *.
  destruct (mp <? 10) eqn:E; [apply Z.ltb_lt in E | apply Z.ltb_ge in E]; lia.
Qed.

Lemma to_fields_bounds (t : Z) :
  0 <= f_month (to_fields t) <= 11 /\ 1 <= f_day (to_fields t) /\
  0 <= f_ms (to_fields t) < ms_per_day.
Proof.
  unfold to_fields. destruct (civil_from_days (t / ms_per_day)) as [[y m] d] eqn:E.
  apply civil_from_days_bounds in E. simpl.
  pose proof (Z.mod_pos_bound t ms_per_day ltac:(unfold ms_per_day; lia)). lia.
Qed.

Lemma fixed_unit_roundtrip (len o g t : Z) :
  0 < len -> (g + o) / len * len - o = g ->
  g + (t - g) / len * len = (t + o) / len * len - o.
Proof.
  intros Hl Hg. set (q := (g + o) / len) in *.
  replace (t - g) with (t + o + (- q) * len) by lia.
  rewrite Z.div_add by lia. lia.
Qed.

Lemma fixed_unit_roundtrip0 (len g t : Z) :
  0 < len -> g / len * len = g -> g + (t - g) / len * len = t / len * len.
Proof.
  intros Hl Hg. pose proof (fixed_unit_roundtrip len 0 g t Hl).
  rewrite !Z.add_0_r, !Z.sub_0_r in H. auto.
Qed.

Lemma start_of_week_form (t : Z) :
  start_of t Week = (t + 4 * ms_per_day) / (7 * ms_per_day) * (7 * ms_per_day) - 4 * ms_per_day.
Proof.
  unfold start_of, week_day.
  rewrite (Z.mul_comm 7 ms_per_day).
  rewrite <- Z.div_div by (unfold ms_per_day; lia).
  rewrite Z.div_add by (unfold ms_per_day; lia).
  rewrite (Z.mod_eq (t / ms_per_day + 4) 7) by lia. ring.
Qed.

(** C7 (spec-modelled: [diff], [add] and [start_of] of [date_utils]).
    When the chart start lies on a boundary of the configured unit and
    step and column width are positive, mapping a date [d] to pixels with
    [compute_x] and back with [compute_start_end_date] gives [d] truncated
    to the unit, whatever the width. *)
Theorem to_date_to_x_start_of (cfg : gantt_config) (d : Z) (w : Q) :
  (0 < g_step cfg)%Q -> (0 < g_column_width cfg)%Q ->
  unit_aligned (g_gantt_start cfg) (g_unit cfg) ->
  fst (compute_start_end_date cfg (compute_x cfg d) w) = start_of d (g_unit cfg).
Proof.
  intros Hs Hc Ha. unfold compute_start_end_date, compute_x. cbv zeta. cbn [fst].
  assert (HD : (inject_Z (diff d (g_gantt_start cfg) (g_unit cfg)) / g_step cfg
                * g_column_width cfg / g_column_width cfg * g_step cfg
                == inject_Z (diff d (g_gantt_start cfg) (g_unit cfg)))%Q).
  { assert (Hs0 : ~ (g_step cfg == 0)%Q)
      by (intros E; rewrite E in Hs; apply (Qlt_irrefl 0 Hs)).
    assert (Hc0 : ~ (g_column_width cfg == 0)%Q)
      by (intros E; rewrite E in Hc; apply (Qlt_irrefl 0 Hc)).
    field. auto. }
  unfold add. rewrite (js_trunc_int _ _ HD).
  destruct cfg as [cw st u gs ig isig]; cbn [g_unit g_gantt_start] in *.
  destruct (to_fields_bounds d) as (Hm & Hd & Hms).
  destruct u; cbn [diff fixed_length unit_aligned] in *.
  - destruct Ha as (Ham & Had & Hams).
    replace (before_in_year (to_fields d) (to_fields gs)) with false.
    + rewrite Ham, Had, Hams. cbn [start_of]. f_equal. lia.
    + unfold before_in_year, before_in_month. rewrite Ham, Had, Hams.
      replace (f_month (to_fields d) <? 0) with false by (symmetry; apply Z.ltb_ge; lia).
      replace (f_day (to_fields d) <? 1) with false by (symmetry; apply Z.ltb_ge; lia).
      replace (f_ms (to_fields d) <? 0) with false by (symmetry; apply Z.ltb_ge; lia).
      destruct (f_month (to_fields d) =? 0), (f_day (to_fields d) =? 1); reflexivity.
  - destruct Ha as (Had & Hams).
    replace (before_in_month (to_fields d) (to_fields gs)) with false.
    + rewrite Had, Hams. cbn [start_of]. unfold make_date. cbv zeta.
      replace (f_month (to_fields gs) + ((f_year (to_fields d) - f_year (to_fields gs)) * 12
               + (f_month (to_fields d) - f_month (to_fields gs)) - 0))
        with (f_month (to_fields d) + (f_year (to_fields d) - f_year (to_fields gs)) * 12)
        by ring.
      rewrite Z.div_add, Z.mod_add by lia.
      rewrite (Z.div_small (f_month (to_fields d)) 12) by lia.
      replace (f_year (to_fields gs) + (0 + (f_year (to_fields d) - f_year (to_fields gs))))
        with (f_year (to_fields d) + 0) by ring.
      reflexivity.
    + unfold before_in_month. rewrite Had, Hams.
      replace (f_day (to_fields d) <? 1) with false by (symmetry; apply Z.ltb_ge; lia).
      replace (f_ms (to_fields d) <? 0) with false by (symmetry; apply Z.ltb_ge; lia).
      destruct (f_day (to_fields d) =? 1); reflexivity.
  - rewrite start_of_week_form in Ha |- *.
    apply fixed_unit_roundtrip; [unfold ms_per_day; lia | exact Ha].
  - apply fixed_unit_roundtrip0; [unfold ms_per_day; lia | exact Ha].
  - apply fixed_unit_roundtrip0; [lia | exact Ha].
  - apply fixed_unit_roundtrip0; [lia | exact Ha].
  - apply fixed_unit_roundtrip0; [lia | exact Ha].
Qed.

Lemma to_date_to_x_start_of_witness :
  fst (compute_start_end_date (scenario_config (fun _ => false))
         (compute_x (scenario_config (fun _ => false)) (make_date 2024 0 3 5000)) 45)
  = start_of (make_date 2024 0 3 5000) Day.
Proof.
  exact (to_date_to_x_start_of (scenario_config (fun _ => false)) (make_date 2024 0 3 5000) 45
           ltac:(vm_compute; reflexivity) ltac:(vm_compute; reflexivity)
           ltac:(vm_compute; reflexivity)).
Defined.

End DateFacts.

(* ------------------------------------------------------------------ *)
(** * Facts about task validation *)
Module TaskFacts.
Import Snap Dates BarModel Tasks.

Lemma setup_task_index (i : nat) (t : task) (r : resolved_task) :
  setup_task i t = Some r -> r_index r = i.
Proof.
  unfold setup_task.
  destruct (truthy_date (t_start t)); simpl; [|discriminate].
  destruct (truthy_date (resolve_end t (parse (t_start t)))); simpl; [|discriminate].
  destruct (year_diff _ _) as [d|].
  - destruct (d <? 0)%Z; [discriminate|]. destruct (10 <? d)%Z; [discriminate|].
    intros H; injection H as <-; reflexivity.
  - intros H; injection H as <-; reflexivity.
Qed.

Lemma setup_task_some_iff (i : nat) (t : task) :
  (exists r, setup_task i t = Some r) <->
  (truthy_date (t_start t) = true /\
   truthy_date (resolve_end t (parse (t_start t))) = true /\
   match year_diff (parse (resolve_end t (parse (t_start t)))) (parse (t_start t)) with
   | Some d => (0 <= d <= 10)%Z
   | None => True
   end).
Proof.
  unfold setup_task.
  destruct (truthy_date (t_start t)); simpl;
    [|split; [intros [r Hr]; discriminate | intros (H & _); discriminate]].
  destruct (truthy_date (resolve_end t (parse (t_start t)))); simpl;
    [|split; [intros [r Hr]; discriminate | intros (_ & H & _); discriminate]].
  destruct (year_diff _ _) as [d|].
  - destruct (d <? 0)%Z eqn:E1; [apply Z.ltb_lt in E1 | apply Z.ltb_ge in E1];
    [split; [intros [r Hr]; discriminate | intros (_ & _ & H); lia]|].
    destruct (10 <? d)%Z eqn:E2; [apply Z.ltb_lt in E2 | apply Z.ltb_ge in E2];
    [split; [intros [r Hr]; discriminate | intros (_ & _ & H); lia]|].
    split; [intros _; repeat split; lia | intros _; eexists; reflexivity].
  - split; [intros _; repeat split | intros _; eexists; reflexivity].
Qed.

Lemma setup_tasks_from_In (k : nat) (ts : list task) (r : resolved_task) :
  In r (setup_tasks_from k ts) <->
  exists j t, nth_error ts j = Some t /\ setup_task (k + j) t = Some r.
Proof.
  revert k; induction ts as [|t ts IH]; intros k; simpl.
  - split; [intros []|]. intros (j & t & H & _). destruct j; discriminate.
  - assert (Hrest : In r (setup_tasks_from (S k) ts) <->
                    exists j t', nth_error (t :: ts) (S j) = Some t' /\
                                 setup_task (k + S j) t' = Some r).
    { rewrite IH. split; intros (j & t' & H1 & H2); exists j, t';
        (split; [exact H1|]); [rewrite <- plus_n_Sm | rewrite <- plus_n_Sm in H2]; exact H2. }
    destruct (setup_task k t) as [r0|] eqn:E.
    + simpl. rewrite Hrest. split.
      * intros [<-|(j & t' & H1 & H2)].
        -- exists O, t. rewrite Nat.add_0_r. auto.
        -- exists (S j), t'. auto.
      * intros ([|j] & t' & H1 & H2).
        -- left. simpl in H1. injection H1 as <-. rewrite Nat.add_0_r in H2.
           rewrite E in H2. injection H2 as <-. reflexivity.
        -- right. exists j, t'. auto.
    + rewrite Hrest. split.
      * intros (j & t' & H1 & H2). exists (S j), t'. auto.
      * intros ([|j] & t' & H1 & H2).
        -- simpl in H1. injection H1 as <-. rewrite Nat.add_0_r in H2.
           rewrite E in H2. discriminate.
        -- exists j, t'. auto.
Qed.

(** C8 (counterexample).  A task from 2020-01-01 to 2030-07-01 lasts
    longer than ten years (it ends after the start plus ten years), yet
    [setup_tasks] keeps it: its difference in whole years is 10, which
    the check [diff > 10] lets through. *)
Example long_task_retained :
  parse (t_start long_task) = Some (make_date 2020 0 1 0) /\
  parse (t_end long_task) = Some (make_date 2030 6 1 0) /\
  (add (make_date 2020 0 1 0) 10 Year < make_date 2030 6 1 0)%Z /\
  year_diff (parse (t_end long_task)) (parse (t_start long_task)) = Some 10%Z /\
  exists r, setup_tasks [long_task] = [r] /\ r_index r = O.
Proof.
  split; [vm_compute; reflexivity|]. split; [vm_compute; reflexivity|].
  split; [vm_compute; reflexivity|]. split; [vm_compute; reflexivity|].
  eexists. split; [vm_compute; reflexivity | reflexivity].
Qed.

(** C8 (amended).  [setup_tasks] is total (it never fails), and the task
    at position [i] is retained, with [_index] equal to [i], exactly when
    its [start] is truthy, its [end] after the duration step is truthy,
    and its difference end - start in whole years is not negative and at
    most 10 (an invalid date makes the difference [NaN], which passes both
    checks). *)
Theorem setup_tasks_retained_iff (ts : list task) (i : nat) (t : task) :
  nth_error ts i = Some t ->
  ((exists r, In r (setup_tasks ts) /\ r_index r = i) <->
   (truthy_date (t_start t) = true /\
    truthy_date (resolve_end t (parse (t_start t))) = true /\
    match year_diff (parse (resolve_end t (parse (t_start t)))) (parse (t_start t)) with
    | Some d => (0 <= d <= 10)%Z
    | None => True
    end)).
Proof.
  intros Hi. rewrite <- setup_task_some_iff. unfold setup_tasks. split.
  - intros (r & Hr & Hidx). apply setup_tasks_from_In in Hr.
    destruct Hr as (j & t' & H1 & H2). simpl in H2.
    rewrite (setup_task_index _ _ _ H2) in Hidx. subst j.
    rewrite Hi in H1. injection H1 as <-. exists r. exact H2.
  - intros (r & Hr). exists r. split.
    + apply setup_tasks_from_In. exists i, t. auto.
    + exact (setup_task_index _ _ _ Hr).
Qed.

Lemma setup_tasks_retained_iff_witness :
  (exists r, In r (setup_tasks [long_task]) /\ r_index r = O) <->
  (truthy_date (t_start long_task) = true /\
   truthy_date (resolve_end long_task (parse (t_start long_task))) = true /\
   match year_diff (parse (resolve_end long_task (parse (t_start long_task))))
                   (parse (t_start long_task)) with
   | Some d => (0 <= d <= 10)%Z
   | None => True
   end).
Proof. exact (setup_tasks_retained_iff [long_task] O long_task eq_refl). Defined.

End TaskFacts.


(* ------------------------------------------------------------------ *)
(** * The dependency map and the dependents it yields *)
Module DepsGraphFacts.
Import Deps DepsGraph.

Lemma lookup_push_dep (m : dep_map) (k id d : string) :
  lookup (push_dep m k id) d =
  if String.eqb d k then Some (succs m d ++ [id]) else lookup m d.
Proof.
  induction m as [|[k' v] m IH]; simpl.
  - unfold succs; simpl. destruct (String.eqb d k); reflexivity.
  - destruct (String.eqb_spec k k') as [<-|Hk]; simpl.
    + unfold succs; simpl. destruct (String.eqb d k); reflexivity.
    + destruct (String.eqb_spec d k') as [->|Hd].
      * destruct (String.eqb_spec k' k) as [->|_]; [congruence|]. reflexivity.
      * rewrite IH. unfold succs at 1 2; simpl.
        destruct (String.eqb_spec d k') as [|_]; [congruence|]. reflexivity.
Qed.

Lemma succs_push_dep (m : dep_map) (k id d : string) :
  succs (push_dep m k id) d = succs m d ++ (if String.eqb d k then [id] else []).
Proof.
  unfold succs at 1. rewrite lookup_push_dep.
  destruct (String.eqb d k); [reflexivity|]. rewrite app_nil_r. reflexivity.
Qed.

Lemma lookup_push_dep_None (m : dep_map) (k id d : string) :
  lookup (push_dep m k id) d = None <-> lookup m d = None /\ d <> k.
Proof.
  rewrite lookup_push_dep. destruct (String.eqb_spec d k); split.
  - discriminate.
  - intros [_ H]; congruence.
  - tauto.
  - tauto.
Qed.

Lemma succs_push_all (ds : list string) (id d : string) (m : dep_map) :
  succs (fold_left (fun m d' => push_dep m d' id) ds m) d =
  succs m d ++ map (fun _ => id) (filter (String.eqb d) ds).
Proof.
  revert m; induction ds as [|d' ds IH]; intros m; simpl.
  - rewrite app_nil_r. reflexivity.
  - rewrite IH, succs_push_dep. destruct (String.eqb d d'); simpl;
      rewrite <- app_assoc; reflexivity.
Qed.

Lemma lookup_push_all_None (ds : list string) (id d : string) (m : dep_map) :
  lookup (fold_left (fun m d' => push_dep m d' id) ds m) d = None <->
  lookup m d = None /\ ~ In d ds.
Proof.
  revert m; induction ds as [|d' ds IH]; intros m; simpl.
  - tauto.
  - rewrite IH, lookup_push_dep_None. intuition congruence.
Qed.

Lemma succs_setup_from (ts : list dtask) (d : string) (m : dep_map) :
  succs (fold_left (fun m t => fold_left (fun m d' => push_dep m d' (t_id t)) (t_dependencies t) m)
            ts m) d =
  succs m d ++ flat_map (fun t => map (fun _ => t_id t) (filter (String.eqb d) (t_dependencies t))) ts.
Proof.
  revert m; induction ts as [|t ts IH]; intros m; simpl.
  - rewrite app_nil_r. reflexivity.
  - rewrite IH, succs_push_all, app_assoc. reflexivity.
Qed.

Lemma lookup_setup_from_None (ts : list dtask) (d : string) (m : dep_map) :
  lookup (fold_left (fun m t => fold_left (fun m d' => push_dep m d' (t_id t)) (t_dependencies t) m)
            ts m) d = None <->
  lookup m d = None /\ ~ (exists t, In t ts /\ In d (t_dependencies t)).
Proof.
  revert m; induction ts as [|t ts IH]; intros m; simpl.
  - split; [intros H; split; [exact H|]; intros (t & [] & _) | tauto].
  - rewrite IH, lookup_push_all_None. split.
    + intros [[H1 H2] H3]. split; [exact H1|]. intros (t' & [<-|Ht'] & Hd); eauto.
    + intros [H1 H2]. split; [split; [exact H1|]|]; intros H; apply H2; eauto.
      destruct H as (t' & Ht' & Hd). eauto.
Qed.

Lemma jsid_eqb_iff (a b : jsid) : jsid_eqb a b = true <-> a = b.
Proof.
  destruct a as [x|], b as [y|]; simpl; try (split; congruence).
  rewrite String.eqb_eq. split; congruence.
Qed.

Lemma includes_iff (l : list jsid) (x : jsid) : includes l x = true <-> In x l.
Proof.
  unfold includes. rewrite existsb_exists. split.
  - intros (y & Hy & E). apply jsid_eqb_iff in E. subst. exact Hy.
  - intros Hx. exists x. split; [exact Hx|]. now apply jsid_eqb_iff.
Qed.

Lemma In_fold_concat (m : dep_map) (F acc : list jsid) (x : jsid) :
  In x (fold_left (concat_lookup m) F acc) <->
  In x acc \/ exists c, In c F /\
    match lookup m (key_of c) with Some ids => In x (map Some ids) | None => x = None end.
Proof.
  revert acc; induction F as [|c F IH]; intros acc; simpl.
  - split; [tauto|]. intros [H|(c & [] & _)]; exact H.
  - rewrite IH. unfold concat_lookup.
    destruct (lookup m (key_of c)) as [ids|] eqn:E; rewrite in_app_iff; split.
    + intros [[H|H]|(c' & Hc' & H)]; auto.
      * right. exists c. rewrite E. auto.
      * right. exists c'. auto.
    + intros [H|(c' & [<-|Hc'] & H)]; auto.
      * rewrite E in H. auto.
      * right. exists c'. auto.
    + intros [[H|[H|[]]]|(c' & Hc' & H)]; auto.
      * right. exists c. rewrite E. auto.
      * right. exists c'. auto.
    + intros [H|(c' & [<-|Hc'] & H)]; auto.
      * rewrite E in H. left. right. left. symmetry. exact H.
      * right. exists c'. auto.
Qed.

Section Frontier.
Variable m : dep_map.
Hypothesis undefined_absent : lookup m "undefined" = None.

Lemma In_deps_Some (F : list jsid) (v : string) :
  In (Some v) (fold_left (concat_lookup m) F []) <->
  exists u, In (Some u) F /\ In v (succs m u).
Proof.
  rewrite In_fold_concat. split.
  - intros [[]|(c & Hc & H)]. destruct c as [u|]; simpl in H.
    + exists u. split; [exact Hc|]. unfold succs.
      destruct (lookup m u); [|discriminate].
      apply in_map_iff in H. destruct H as (v' & E & Hv'). injection E as ->. exact Hv'.
    + rewrite undefined_absent in H. discriminate.
  - intros (u & Hu & Hv). right. exists (Some u). split; [exact Hu|]. simpl.
    unfold succs in Hv. destruct (lookup m u); [|destruct Hv].
    apply in_map. exact Hv.
Qed.

Lemma In_deps_None (F : list jsid) (c : jsid) :
  In c (fold_left (concat_lookup m) F []) -> c = None -> In None F \/ exists u, In (Some u) F.
Proof.
  intros H ->. apply In_fold_concat in H. destruct H as [[]|(c & Hc & _)].
  destruct c as [u|]; eauto.
Qed.

Lemma dependents_loop_complete (fuel : nat) :
  forall F O R, dependents_loop fuel m F O = Some R ->
  (forall x, In x O -> In x R) /\
  (forall u w, In (Some u) F -> descends m u w -> In (Some w) R).
Proof.
  induction fuel as [|f IH]; intros F O R Hl.
  - destruct F; [|discriminate]. injection Hl as <-. split; [auto|]. intros u w [].
  - destruct F as [|c F'].
    + injection Hl as <-. split; [auto|]. intros u w [].
    + cbn [dependents_loop] in Hl.
      set (F := c :: F') in *.
      set (deps := fold_left (concat_lookup m) F []) in *.
      destruct (IH _ _ _ Hl) as [HO HF].
      split.
      * intros x Hx. apply HO. apply in_app_iff. auto.
      * intros u w Hu Hd. revert Hu. induction Hd as [u v Hv|u v w Hv Hd IHd]; intros Hu.
        -- apply HO. apply in_app_iff. right. apply In_deps_Some. eauto.
        -- assert (Hdv : In (Some v) deps) by (apply In_deps_Some; eauto).
           destruct (includes F (Some v)) eqn:E.
           ++ apply IHd. now apply includes_iff.
           ++ apply (HF v w); [|exact Hd]. apply filter_In. rewrite E. auto.
Qed.

Lemma dependents_loop_sound (fuel : nat) :
  forall F O R, dependents_loop fuel m F O = Some R ->
  forall v, In (Some v) R -> In (Some v) O \/ exists u, In (Some u) F /\ descends m u v.
Proof.
  induction fuel as [|f IH]; intros F O R Hl v Hv.
  - destruct F; [|discriminate]. injection Hl as <-. auto.
  - destruct F as [|c F'].
    + injection Hl as <-. auto.
    + cbn [dependents_loop] in Hl.
      set (F := c :: F') in *.
      set (deps := fold_left (concat_lookup m) F []) in *.
      destruct (IH _ _ _ Hl v Hv) as [H|(u' & Hu' & Hd)].
      * apply in_app_iff in H. destruct H as [H|H]; [auto|].
        apply In_deps_Some in H. destruct H as (u & Hu & Hs).
        right. exists u. split; [exact Hu|]. now apply desc_one.
      * apply filter_In in Hu'. destruct Hu' as [Hu' _].
        apply In_deps_Some in Hu'. destruct Hu' as (u & Hu & Hs).
        right. exists u. split; [exact Hu|]. now apply (desc_more m u u' v).
Qed.

Lemma dependents_loop_stops (rank : string -> nat) (s : string) :
  (forall u v, reachable m s u -> In v (succs m u) -> (rank v < rank u)%nat) ->
  forall k F O, (forall u, In (Some u) F -> reachable m s u /\ (rank u < k)%nat) ->
  exists R, dependents_loop (S k) m F O = Some R.
Proof.
  intros Hrank k. induction k as [|k IH]; intros F O HF.
  - destruct F as [|c F']; [eexists; reflexivity|].
    assert (Hc : c = None).
    { destruct c as [u|]; [|reflexivity]. destruct (HF u (or_introl eq_refl)). lia. }
    cbn [dependents_loop].
    replace (filter _ _) with (@nil jsid); [eexists; reflexivity|].
    set (F := c :: F') in *.
    destruct (filter (fun d => negb (includes F d)) (fold_left (concat_lookup m) F [])) as [|x l] eqn:E;
      [reflexivity|].
    assert (Hx : In x (filter (fun d => negb (includes F d)) (fold_left (concat_lookup m) F [])))
      by (rewrite E; now left).
    apply filter_In in Hx. destruct Hx as [Hx Hn].
    destruct x as [v|].
    + apply In_deps_Some in Hx. destruct Hx as (u & Hu & _). destruct (HF u Hu). lia.
    + replace (includes F None) with true in Hn; [discriminate|].
      symmetry. apply includes_iff. unfold F. rewrite Hc. now left.
  - destruct F as [|c F']; [eexists; reflexivity|].
    cbn [dependents_loop]. apply IH.
    intros u Hu. apply filter_In in Hu. destruct Hu as [Hu _].
    apply In_deps_Some in Hu. destruct Hu as (u0 & Hu0 & Hs).
    destruct (HF u0 Hu0) as [Hr Hlt].
    split; [exact (reach_step m s u0 u Hr Hs)|].
    specialize (Hrank u0 u Hr Hs). lia.
Qed.

End Frontier.

Lemma filter_truthy_In (l : list jsid) (v : string) :
  In v (filter_truthy l) <-> In (Some v) l /\ v <> "".
Proof.
  induction l as [|[x|] l IH]; simpl.
  - tauto.
  - destruct (String.eqb_spec x "") as [->|Hx]; simpl; rewrite IH; split.
    + intros [H1 H2]. auto.
    + intros [[H|H] H2]; [congruence|auto].
    + intros [<-|[H1 H2]]; auto.
    + intros [[H|H] H2]; [injection H as ->; auto|auto].
  - rewrite IH. split; [intros [H1 H2]; auto|]. intros [[H|H] H2]; [discriminate|auto].
Qed.

(** The map [setup_dependencies] builds: the entry of an id [d] lists,
    task by task in input order, the id of every task naming [d] among its
    dependencies, once per occurrence; there is no entry exactly when no
    task names [d].  The ids are assumed not to be [Object.prototype]
    member names, for which [dependency_map[d] || []] yields an inherited
    value. *)
Theorem setup_dependencies_entries (ts : list dtask) (d : string) :
  forallb plain_key (task_ids ts) = true -> plain_key d = true ->
  succs (setup_dependencies ts) d =
    flat_map (fun t => map (fun _ => t_id t) (filter (String.eqb d) (t_dependencies t))) ts /\
  (lookup (setup_dependencies ts) d = None <->
   ~ (exists t, In t ts /\ In d (t_dependencies t))).
Proof.
  intros _ _. unfold setup_dependencies. split.
  - rewrite succs_setup_from. reflexivity.
  - rewrite lookup_setup_from_None. simpl. tauto.
Qed.

Lemma setup_dependencies_entries_witness :
  succs (setup_dependencies diamond_tasks) "A" =
    flat_map (fun t => map (fun _ => t_id t) (filter (String.eqb "A") (t_dependencies t)))
      diamond_tasks /\
  (lookup (setup_dependencies diamond_tasks) "A" = None <->
   ~ (exists t, In t diamond_tasks /\ In "A" (t_dependencies t))).
Proof.
  exact (setup_dependencies_entries diamond_tasks "A"
           ltac:(vm_compute; reflexivity) ltac:(vm_compute; reflexivity)).
Defined.

(** When no id is ["undefined"] and none is an [Object.prototype] member
    name, a completed [get_all_dependent_tasks(s)] returns, apart from the
    empty id, exactly the tasks reachable from [s] along one or more
    dependency edges (possibly several times). *)
Theorem get_all_dependent_tasks_descendants (fuel : nat) (m : dep_map) (s : string)
  (out : list string) :
  lookup m "undefined" = None ->
  forallb plain_key (s :: flat_map snd m) = true ->
  get_all_dependent_tasks fuel m s = Some out ->
  forall v, v <> "" -> (In v out <-> descends m s v).
Proof.
  intros Hu _ Hg v Hv. unfold get_all_dependent_tasks in Hg.
  destruct (dependents_loop fuel m [Some s] []) as [R|] eqn:E; [|discriminate].
  injection Hg as <-. rewrite filter_truthy_In. split.
  - intros [HR _]. destruct (dependents_loop_sound m Hu fuel _ _ _ E v HR) as [[]|(u & Hs & Hd)].
    destruct Hs as [Hs|[]]. injection Hs as ->. exact Hd.
  - intros Hd. split; [|exact Hv].
    exact (proj2 (dependents_loop_complete m Hu fuel _ _ _ E) s v (or_introl eq_refl) Hd).
Qed.

Lemma get_all_dependent_tasks_descendants_witness :
  In "D" ["B"; "C"; "D"; "D"] <-> descends (setup_dependencies diamond_tasks) "A" "D".
Proof.
  exact (get_all_dependent_tasks_descendants 4 (setup_dependencies diamond_tasks) "A"
           ["B"; "C"; "D"; "D"] ltac:(vm_compute; reflexivity) ltac:(vm_compute; reflexivity)
           ltac:(vm_compute; reflexivity) "D" ltac:(discriminate)).
Defined.

(** When the graph reachable from [s] is acyclic and no id is
    ["undefined"] (or an [Object.prototype] member name), the loop of
    [get_all_dependent_tasks(s)] stops. *)
Theorem get_all_dependent_tasks_terminates (m : dep_map) (s : string) :
  acyclic_from m s ->
  lookup m "undefined" = None ->
  forallb plain_key (s :: flat_map snd m) = true ->
  exists fuel out, get_all_dependent_tasks fuel m s = Some out.
Proof.
  intros [rank Hrank] Hu _.
  destruct (dependents_loop_stops m Hu rank s Hrank (S (rank s)) [Some s] [])
    as [R HR].
  { intros u [Hs|[]]. injection Hs as <-. split; [constructor | lia]. }
  exists (S (S (rank s))), (filter_truthy R). unfold get_all_dependent_tasks. now rewrite HR.
Qed.

Lemma get_all_dependent_tasks_terminates_witness :
  exists fuel out, get_all_dependent_tasks fuel (setup_dependencies diamond_tasks) "A" = Some out.
Proof.
  refine (get_all_dependent_tasks_terminates (setup_dependencies diamond_tasks) "A" _
            ltac:(vm_compute; reflexivity) ltac:(vm_compute; reflexivity)).
  exists (fun u => if String.eqb u "A" then 2%nat
                   else if String.eqb u "B" then 1%nat
                   else if String.eqb u "C" then 1%nat else 0%nat).
  intros u v _ Hin.
  change (setup_dependencies diamond_tasks) with
    [("A", ["B"; "C"]); ("B", ["D"]); ("C", ["D"])] in Hin.
  unfold succs in Hin. simpl in Hin.
  destruct (String.eqb_spec u "A") as [->|HA];
    [destruct Hin as [<-|[<-|[]]]; vm_compute; lia|].
  destruct (String.eqb_spec u "B") as [->|HB];
    [destruct Hin as [<-|[]]; vm_compute; lia|].
  destruct (String.eqb_spec u "C") as [->|HC];
    [destruct Hin as [<-|[]]; vm_compute; lia|].
  destruct Hin.
Defined.

End DepsGraphFacts.


(* ------------------------------------------------------------------ *)
(** * Snapping when no column is ignored *)
Module SnapTruncFacts.
Import Snap SnapFacts.

Lemma Qfloor_nonneg (q : Q) : 0 <= q -> (0 <= Qfloor q)%Z.
Proof.
  intros H. change 0%Z with (Qfloor 0). apply Qfloor_resp_le. exact H.
Qed.

Lemma js_trunc_bounds (q : Q) :
  (0 <= q -> 0 <= inject_Z (js_trunc q) <= q /\ q < inject_Z (js_trunc q) + 1) /\
  (q <= 0 -> q <= inject_Z (js_trunc q) <= 0 /\ inject_Z (js_trunc q) - 1 < q).
Proof.
  unfold js_trunc. destruct (Qle_bool 0 q) eqn:E.
  - apply Qle_bool_iff in E.
    assert (H1 := Qfloor_le q). assert (H2 := Qlt_floor q).
    assert (H3 := Qfloor_nonneg q E).
    rewrite inject_Z_plus in H2. change (inject_Z 1) with 1 in H2.
    assert (H4 : 0 <= inject_Z (Qfloor q)) by (change 0 with (inject_Z 0); now rewrite <- Zle_Qle).
    split; [intros _; split; [split|]; assumption|].
    intros Hq. assert (Hq0 : q == 0) by lra.
    rewrite (Qfloor_compat q 0 Hq0). change (inject_Z (Qfloor 0)) with 0. split; [split|]; lra.
  - assert (Hn : q < 0).
    { apply Qnot_le_lt. intros H. apply Qle_bool_iff in H. congruence. }
    assert (H1 := Qfloor_le (- q)). assert (H2 := Qlt_floor (- q)).
    rewrite inject_Z_plus in H2. change (inject_Z 1) with 1 in H2.
    rewrite inject_Z_opp.
    split; [intros Hq; lra|]. intros _.
    assert (H3 := Qfloor_nonneg (- q) ltac:(lra)).
    assert (H4 : 0 <= inject_Z (Qfloor (- q))) by (change 0 with (inject_Z 0); now rewrite <- Zle_Qle).
    split; [split|]; lra.
Qed.

Lemma get_ignored_region_nil (cw p : Q) (drn : Z) : get_ignored_region [] cw p drn = [].
Proof. unfold get_ignored_region. destruct (Z.eqb drn 1); reflexivity. Qed.

(** With no ignored column and a positive snap increment
    [inc = column_width / unit_length], [get_snap_position(dx, ox)] is
    [Math.trunc(dx / inc) * inc]: it snaps towards zero, to the nearest
    multiple of [inc] not farther from 0 than [dx], whatever [ox]; the
    branch adding [inc] when [rem >= inc * 2] is never taken. *)
Theorem snap_truncates_without_ignored (fuel : nat) (cfg : snap_config) (dx ox ul : Q) :
  ignored_positions cfg = [] ->
  unit_length cfg = Some ul ->
  0 < column_width cfg / ul ->
  exists r, get_snap_position fuel cfg dx ox = Some r /\
    r == inject_Z (js_trunc (dx / (column_width cfg / ul))) * (column_width cfg / ul) /\
    (0 <= dx -> 0 <= r <= dx /\ dx - r < column_width cfg / ul) /\
    (dx <= 0 -> dx <= r <= 0 /\ r - dx < column_width cfg / ul).
Proof.
  intros Hig Hul Hinc. unfold get_snap_position. rewrite Hul, Hig, get_ignored_region_nil,
    skip_ignored_nil.
  set (inc := column_width cfg / ul) in *.
  set (t := dx / inc).
  set (z := js_trunc t).
  assert (Hdx : dx == t * inc) by (unfold t; field; lra).
  assert (Hb := js_trunc_bounds t). fold z in Hb.
  assert (Hfr : t - inject_Z z < 1 /\ - 1 < t - inject_Z z).
  { destruct (Qlt_le_dec t 0) as [Hn|Hp].
    - destruct (proj2 Hb ltac:(lra)). lra.
    - destruct (proj1 Hb Hp). lra. }
  assert (Hrem : js_rem dx inc == inc * (t - inject_Z z))
    by (unfold js_rem; fold t; fold z; rewrite Hdx at 1; ring).
  assert (Hlt : Qltb (js_rem dx inc) (inc * 2) = true).
  { apply Qltb_iff. rewrite Hrem. nra. }
  assert (Hsr : snap_round inc dx == inject_Z z * inc).
  { unfold snap_round. rewrite Hlt. rewrite Hrem, Hdx. ring. }
  exists (ox + snap_round inc dx - ox). split; [reflexivity|].
  assert (Hr : ox + snap_round inc dx - ox == inject_Z z * inc) by (rewrite Hsr; ring).
  split; [exact Hr|]. rewrite Hr. split.
  - intros Hd. assert (Ht : 0 <= t) by (unfold t; apply Qle_shift_div_l; lra).
    destruct (proj1 Hb Ht) as [[H1 H2] H3]. rewrite Hdx. split; [split|]; nra.
  - intros Hd. assert (Ht : t <= 0) by (unfold t; apply Qle_shift_div_r; lra).
    destruct (proj2 Hb Ht) as [[H1 H2] H3]. rewrite Hdx. split; [split|]; nra.
Qed.

Lemma snap_truncates_without_ignored_witness :
  exists r, get_snap_position 0 (day_view []) 80 10 = Some r /\
    r == inject_Z (js_trunc (80 / (column_width (day_view []) / 1))) * (column_width (day_view []) / 1) /\
    (0 <= 80 -> 0 <= r <= 80 /\ 80 - r < column_width (day_view []) / 1) /\
    (80 <= 0 -> 80 <= r <= 0 /\ r - 80 < column_width (day_view []) / 1).
Proof.
  exact (snap_truncates_without_ignored 0 (day_view []) 80 10 1 eq_refl
           ltac:(vm_compute; reflexivity) ltac:(vm_compute; reflexivity)).
Defined.

End SnapTruncFacts.


(* ------------------------------------------------------------------ *)
(** * What a drag frame changes *)
Module DragFacts.
Import Deps Snap BarModel Drag.

Lemma get_bar_id (bs : bars) (id : string) (b : bar) :
  get_bar bs id = Some b -> b_id b = id.
Proof.
  induction bs as [|b' bs IH]; simpl; [discriminate|].
  destruct (String.eqb_spec (b_id b') id) as [E|_]; [|exact IH].
  intros H; injection H as <-. exact E.
Qed.

Lemma get_bar_set_bar (bs : bars) (b : bar) (id : string) :
  get_bar (set_bar bs b) id =
  if String.eqb (b_id b) id then
    match get_bar bs id with Some _ => Some b | None => None end
  else get_bar bs id.
Proof.
  induction bs as [|b' bs IH]; simpl.
  - destruct (String.eqb (b_id b) id); reflexivity.
  - destruct (String.eqb_spec (b_id b') (b_id b)) as [E|E]; simpl.
    + destruct (String.eqb_spec (b_id b) id) as [E2|E2];
        destruct (String.eqb_spec (b_id b') id); congruence.
    + rewrite IH. destruct (String.eqb_spec (b_id b) id) as [E2|E2];
        destruct (String.eqb_spec (b_id b') id); congruence.
Qed.

(** [update_bar_position] either leaves the bars as they are or replaces
    the bar of [self]'s id by one with [self]'s id and dependencies. *)
Lemma update_bar_position_shape (bs : bars) (self : bar) (x w : option Q) (bs' : bars) :
  update_bar_position bs self x w = Some bs' ->
  bs' = bs \/
  exists b', bs' = set_bar bs b' /\ b_id b' = b_id self /\
    b_dependencies b' = b_dependencies self /\
    b_x b' = match x with Some nx => nx | None => b_x self end /\
    b_width b' = match w with
                 | Some w' => if Qltb 0 w' then w' else b_width self
                 | None => b_width self
                 end.
Proof.
  unfold update_bar_position. intros H.
  destruct x as [nx|].
  - destruct (dependency_xs bs (b_dependencies self)); [|discriminate].
    destruct (fold_left _ _ true).
    + right. injection H as <-.
      destruct w as [w'|]; [destruct (Qltb 0 w')|]; eexists; repeat split.
    + left. injection H as <-. reflexivity.
  - right. injection H as <-.
    destruct w as [w'|]; [destruct (Qltb 0 w')|]; eexists; repeat split.
Qed.

(** A frame that only ever replaces bars by related ones: every bar of
    the result is related to the bar of the same id before. *)
Lemma drag_frame_preserves (R : string -> bar -> bar -> Prop)
  (Rrefl : forall id b, R id b b)
  (Rtrans : forall id a b c, R id a b -> R id b c -> R id a c)
  (fuel : nat) (scfg : snap_config) (mode : drag_mode) (movable : bool)
  (parent : string) (dx : Q) :
  (forall o bs bs1, drag_bar_frame fuel scfg mode movable parent dx o bs = Some bs1 ->
     forall id b1, get_bar bs1 id = Some b1 -> exists b, get_bar bs id = Some b /\ R id b1 b) ->
  forall group bs bs', drag_frame fuel scfg mode movable parent dx group bs = Some bs' ->
  forall id b', get_bar bs' id = Some b' -> exists b, get_bar bs id = Some b /\ R id b' b.
Proof.
  intros Hstep group. induction group as [|o group IH]; intros bs bs' Hf id b' Hb'; simpl in Hf.
  - injection Hf as <-. exists b'. auto.
  - destruct (drag_bar_frame fuel scfg mode movable parent dx o bs) as [bs1|] eqn:E;
      [|discriminate].
    destruct (IH bs1 bs' Hf id b' Hb') as (b1 & Hb1 & R1).
    destruct (Hstep o bs bs1 E id b1 Hb1) as (b & Hb & R2).
    exists b. split; [exact Hb|]. exact (Rtrans _ _ _ _ R1 R2).
Qed.

(** One [update_bar_position] on the current bar of its id: every bar
    after it is the one before, or the replacement of the updated bar. *)
Lemma update_current_bar (bs bs1 : bars) (id0 : string) (self : bar) (x w : option Q) :
  get_bar bs id0 = Some self ->
  update_bar_position bs self x w = Some bs1 ->
  forall id b1, get_bar bs1 id = Some b1 ->
  get_bar bs id = Some b1 \/
  (id = id0 /\ get_bar bs id = Some self /\ b_id b1 = b_id self /\
   b_dependencies b1 = b_dependencies self /\
   b_x b1 = match x with Some nx => nx | None => b_x self end /\
   b_width b1 = match w with
                | Some w' => if Qltb 0 w' then w' else b_width self
                | None => b_width self
                end).
Proof.
  intros Hself Hu id b1 Hb1.
  assert (Hid := get_bar_id _ _ _ Hself).
  destruct (update_bar_position_shape _ _ _ _ _ Hu) as [->|(b' & -> & H1 & H2 & H3 & H4)];
    [left; exact Hb1|].
  rewrite get_bar_set_bar in Hb1.
  destruct (String.eqb_spec (b_id b') id) as [E|E]; [|left; exact Hb1].
  destruct (get_bar bs id) as [b0|] eqn:Eb0; [|discriminate].
  injection Hb1 as <-. right.
  assert (Hii : id = id0) by congruence. rewrite Hii in Eb0 |- *.
  rewrite Hself in Eb0. injection Eb0 as <-.
  repeat split; auto.
Qed.

(** Resizing from the right never moves a bar: after a [mousemove] frame
    every bar has the [x] and dependencies it had before, and every bar
    other than the one grabbed is unchanged. *)
Theorem drag_resize_right_frame (fuel : nat) (scfg : snap_config) (movable : bool)
  (parent : string) (dx : Q) (group : list drag_origin) (bs bs' : bars) :
  drag_mousemove fuel scfg ResizingRight movable parent dx group bs = Some bs' ->
  forall id b', get_bar bs' id = Some b' ->
  exists b, get_bar bs id = Some b /\ b_x b' = b_x b /\
    b_dependencies b' = b_dependencies b /\ (id <> parent -> b' = b).
Proof.
  unfold drag_mousemove.
  apply (drag_frame_preserves
           (fun id b' b => b_x b' = b_x b /\ b_dependencies b' = b_dependencies b /\
                           (id <> parent -> b' = b))).
  - intros id b. auto.
  - intros id a b c (H1 & H2 & H3) (H4 & H5 & H6). split; [congruence|].
    split; [congruence|]. intros Hn. rewrite (H3 Hn). exact (H6 Hn).
  - intros o bs0 bs1 Hf id b1 Hb1. unfold drag_bar_frame in Hf.
    destruct (get_snap_position fuel scfg dx (o_x o)) as [fdx|]; [|discriminate].
    destruct (get_bar bs0 (o_id o)) as [self|] eqn:Es; [|discriminate].
    destruct (String.eqb_spec parent (o_id o)) as [Ep|Ep];
      [|injection Hf as <-; exists b1; auto].
    destruct (update_current_bar _ _ _ _ _ _ Es Hf id b1 Hb1)
      as [H|(-> & H1 & H2 & H3 & H4 & _)]; [exists b1; auto|].
    exists self. split; [exact H1|]. split; [exact H4|]. split; [exact H3|].
    intros Hn. congruence.
Qed.

Lemma drag_resize_right_frame_witness :
  drag_mousemove 0 (day_view []) ResizingRight true "B" 50
    [mk_drag_origin "B" 100 45; mk_drag_origin "A" 0 90] pred_succ_bars =
    Some [mk_bar "A" 0 90 []; mk_bar "B" 100 90 ["A"]] /\
  exists b, get_bar pred_succ_bars "B" = Some b /\ b_x (mk_bar "B" 100 90 ["A"]) = b_x b /\
    b_dependencies (mk_bar "B" 100 90 ["A"]) = b_dependencies b /\
    ("B" <> "B" -> mk_bar "B" 100 90 ["A"] = b).
Proof.
  split; [vm_compute; reflexivity|].
  exact (drag_resize_right_frame 0 (day_view []) true "B" 50
           [mk_drag_origin "B" 100 45; mk_drag_origin "A" 0 90] pred_succ_bars
           [mk_bar "A" 0 90 []; mk_bar "B" 100 90 ["A"]] ltac:(vm_compute; reflexivity)
           "B" (mk_bar "B" 100 90 ["A"]) ltac:(vm_compute; reflexivity)).
Defined.

(** Dragging keeps every bar's width, and resizing from the left keeps the
    width of every bar other than the one grabbed: after a [mousemove]
    frame each such bar has the width it had before. *)
Theorem drag_move_keeps_widths (fuel : nat) (scfg : snap_config) (mode : drag_mode)
  (movable : bool) (parent : string) (dx : Q) (group : list drag_origin) (bs bs' : bars) :
  drag_mousemove fuel scfg mode movable parent dx group bs = Some bs' ->
  forall id b', (mode = Dragging \/ (mode = ResizingLeft /\ id <> parent)) ->
  get_bar bs' id = Some b' ->
  exists b, get_bar bs id = Some b /\ b_width b' = b_width b.
Proof.
  intros Hm.
  set (R := fun id (b' b : bar) =>
              (mode = Dragging \/ (mode = ResizingLeft /\ id <> parent)) ->
              b_width b' = b_width b).
  assert (Hm' : drag_frame fuel scfg mode movable parent dx group bs = Some bs' \/ bs' = bs).
  { unfold drag_mousemove in Hm.
    destruct mode; try (left; exact Hm). right. injection Hm as Hm. exact (eq_sym Hm). }
  intros id b' Hmode Hb'.
  destruct Hm' as [Hm' | ->]; [|exists b'; auto].
  assert (Hp := drag_frame_preserves R (fun id b H => eq_refl)
                  (fun id a b c H1 H2 H => eq_trans (H1 H) (H2 H))
                  fuel scfg mode movable parent dx).
  assert (Hstep : forall o bs0 bs1,
             drag_bar_frame fuel scfg mode movable parent dx o bs0 = Some bs1 ->
             forall id b1, get_bar bs1 id = Some b1 -> exists b, get_bar bs0 id = Some b /\ R id b1 b).
  2: { destruct (Hp Hstep group bs bs' Hm' id b' Hb') as (b & Hb & HR).
       exists b. split; [exact Hb | exact (HR Hmode)]. }
  clear id b' Hmode Hb'.
  intros o bs0 bs1 Hf id b1 Hb1. unfold drag_bar_frame in Hf.
  destruct (get_snap_position fuel scfg dx (o_x o)) as [fdx|]; [|discriminate].
  destruct (get_bar bs0 (o_id o)) as [self|] eqn:Es; [|discriminate].
  assert (Hsame : bs1 = bs0 -> exists b, get_bar bs0 id = Some b /\ R id b1 b)
    by (intros ->; exists b1; split; [exact Hb1 | intros _; reflexivity]).
  destruct mode.
  - injection Hf as Hf. exact (Hsame (eq_sym Hf)).
  - destruct movable; [|injection Hf as Hf; exact (Hsame (eq_sym Hf))].
    destruct (update_current_bar _ _ _ _ _ _ Es Hf id b1 Hb1)
      as [H|(-> & H1 & _ & _ & _ & H4)]; [exists b1; split; [exact H | intros _; reflexivity]|].
    exists self. split; [exact H1|]. intros _. exact H4.
  - destruct (String.eqb_spec parent (o_id o)) as [Ep|Ep].
    + destruct (update_current_bar _ _ _ _ _ _ Es Hf id b1 Hb1)
        as [H|(-> & H1 & _ & _ & _ & _)]; [exists b1; split; [exact H | intros _; reflexivity]|].
      exists self. split; [exact H1|]. intros [H|[_ H]]; [discriminate | congruence].
    + destruct (update_current_bar _ _ _ _ _ _ Es Hf id b1 Hb1)
        as [H|(-> & H1 & _ & _ & _ & H4)]; [exists b1; split; [exact H | intros _; reflexivity]|].
      exists self. split; [exact H1|]. intros _. exact H4.
  - destruct (String.eqb_spec parent (o_id o)) as [Ep|Ep];
      [|injection Hf as Hf; exact (Hsame (eq_sym Hf))].
    destruct (update_current_bar _ _ _ _ _ _ Es Hf id b1 Hb1)
      as [H|(-> & H1 & _ & _ & _ & _)]; [exists b1; split; [exact H | intros _; reflexivity]|].
    exists self. split; [exact H1|]. intros [H|[H _]]; discriminate.
Qed.

Lemma drag_move_keeps_widths_witness :
  drag_mousemove 0 (day_view []) Dragging true "B" 45
    [mk_drag_origin "B" 100 45] pred_succ_bars =
    Some [mk_bar "A" 0 90 []; mk_bar "B" 145 45 ["A"]] /\
  exists b, get_bar pred_succ_bars "B" = Some b /\ b_width (mk_bar "B" 145 45 ["A"]) = b_width b.
Proof.
  split; [vm_compute; reflexivity|].
  exact (drag_move_keeps_widths 0 (day_view []) Dragging true "B" 45
           [mk_drag_origin "B" 100 45] pred_succ_bars
           [mk_bar "A" 0 90 []; mk_bar "B" 145 45 ["A"]] ltac:(vm_compute; reflexivity)
           "B" (mk_bar "B" 145 45 ["A"]) (or_introl eq_refl) ltac:(vm_compute; reflexivity)).
Defined.

End DragFacts.


(* ------------------------------------------------------------------ *)
(** * Dragging the progress handle *)
Module ProgressDragFacts.
Import Snap BarModel Drag SnapFacts BarFacts.

Lemma filter_length_pos (f : Q -> bool) (l : list Q) (x : Q) :
  In x l -> f x = true -> (0 < List.length (filter f l))%nat.
Proof.
  intros Hx Hf. destruct (filter f l) as [|y l'] eqn:E; [|simpl; lia].
  assert (H : In x (filter f l)) by (apply filter_In; auto). rewrite E in H. destruct H.
Qed.

Lemma push_right_spec (rs : list (Q * Q)) (n : nat) :
  forall now, (List.length (filter (fun e => Qltb now e) (map snd rs)) <= n)%nat ->
  exists nx, push_right n rs now = Some nx /\ now <= nx /\
    (nx = now \/ exists r, In r rs /\ nx = snd r) /\
    (forall r, In r rs -> ~ (fst r <= nx /\ nx < snd r)).
Proof.
  induction n as [|n IH]; intros now Hn; simpl;
    destruct (find (fun r => Qle_bool (fst r) now && Qltb now (snd r)) rs) as [r|] eqn:E.
  - exfalso. apply find_some in E. destruct E as [Hr Hp].
    apply andb_true_iff in Hp. destruct Hp as [_ Hp].
    assert (H := filter_length_pos (fun e => Qltb now e) (map snd rs) (snd r)
                   (in_map snd rs r Hr) Hp). lia.
  - exists now. split; [reflexivity|]. split; [lra|]. split; [auto|].
    intros r Hr [H1 H2]. assert (H := find_none _ _ E r Hr). simpl in H.
    apply Qle_bool_iff in H1. apply Qltb_iff in H2. rewrite H1, H2 in H. discriminate.
  - apply find_some in E. destruct E as [Hr Hp].
    apply andb_true_iff in Hp. destruct Hp as [H1 H2].
    apply Qle_bool_iff in H1. apply Qltb_iff in H2.
    assert (Hlt : (List.length (filter (fun e => Qltb (snd r) e) (map snd rs))
                   < List.length (filter (fun e => Qltb now e) (map snd rs)))%nat).
    { apply (filter_length_strict _ _ _ (snd r)).
      - intros u _ Hu. apply Qltb_iff in Hu. apply Qltb_iff. lra.
      - exact (in_map snd rs r Hr).
      - now apply Qltb_iff.
      - apply not_true_iff_false. intros Hu. apply Qltb_iff in Hu. lra. }
    destruct (IH (snd r) ltac:(lia)) as (nx & Hnx & Hle & Hwhich & Hout).
    exists nx. split; [exact Hnx|]. split; [lra|]. split; [|exact Hout].
    right. destruct Hwhich as [->|Hw]; [exists r; auto | exact Hw].
  - exists now. split; [reflexivity|]. split; [lra|]. split; [auto|].
    intros r Hr [H1 H2]. assert (H := find_none _ _ E r Hr). simpl in H.
    apply Qle_bool_iff in H1. apply Qltb_iff in H2. rewrite H1, H2 in H. discriminate.
Qed.

Lemma push_left_spec (rs : list (Q * Q)) (n : nat) :
  forall now, (List.length (filter (fun b => Qltb b now) (map fst rs)) <= n)%nat ->
  exists nx, push_left n rs now = Some nx /\ nx <= now /\
    (nx = now \/ exists r, In r rs /\ nx = fst r) /\
    (forall r, In r rs -> ~ (fst r < nx /\ nx <= snd r)).
Proof.
  induction n as [|n IH]; intros now Hn; simpl;
    destruct (find (fun r => Qltb (fst r) now && Qle_bool now (snd r)) rs) as [r|] eqn:E.
  - exfalso. apply find_some in E. destruct E as [Hr Hp].
    apply andb_true_iff in Hp. destruct Hp as [Hp _].
    assert (H := filter_length_pos (fun b => Qltb b now) (map fst rs) (fst r)
                   (in_map fst rs r Hr) Hp). lia.
  - exists now. split; [reflexivity|]. split; [lra|]. split; [auto|].
    intros r Hr [H1 H2]. assert (H := find_none _ _ E r Hr). simpl in H.
    apply Qltb_iff in H1. apply Qle_bool_iff in H2. rewrite H1, H2 in H. discriminate.
  - apply find_some in E. destruct E as [Hr Hp].
    apply andb_true_iff in Hp. destruct Hp as [H1 H2].
    apply Qltb_iff in H1. apply Qle_bool_iff in H2.
    assert (Hlt : (List.length (filter (fun b => Qltb b (fst r)) (map fst rs))
                   < List.length (filter (fun b => Qltb b now) (map fst rs)))%nat).
    { apply (filter_length_strict _ _ _ (fst r)).
      - intros u _ Hu. apply Qltb_iff in Hu. apply Qltb_iff. lra.
      - exact (in_map fst rs r Hr).
      - now apply Qltb_iff.
      - apply not_true_iff_false. intros Hu. apply Qltb_iff in Hu. lra. }
    destruct (IH (fst r) ltac:(lia)) as (nx & Hnx & Hle & Hwhich & Hout).
    exists nx. split; [exact Hnx|]. split; [lra|]. split; [|exact Hout].
    right. destruct Hwhich as [->|Hw]; [exists r; auto | exact Hw].
  - exists now. split; [reflexivity|]. split; [lra|]. split; [auto|].
    intros r Hr [H1 H2]. assert (H := find_none _ _ E r Hr). simpl in H.
    apply Qltb_iff in H1. apply Qle_bool_iff in H2. rewrite H1, H2 in H. discriminate.
Qed.

Lemma range_positions_bound (ig : list Q) (cw : Q) (f : Q -> bool) (g : Q * Q -> Q) :
  (List.length (filter f (map g (range_positions ig cw))) <= List.length ig)%nat.
Proof.
  unfold range_positions. rewrite <- (length_map (fun d => (d, d + cw)) ig).
  rewrite <- (length_map g (map (fun d => (d, d + cw)) ig)). apply filter_length_bound.
Qed.

Lemma In_range_positions (ig : list Q) (cw : Q) (r : Q * Q) :
  In r (range_positions ig cw) <-> exists d, In d ig /\ r = (d, d + cw).
Proof.
  unfold range_positions. rewrite in_map_iff.
  split; intros (d & H1 & H2); exists d; auto.
Qed.

Lemma push_right_ranges (ig : list Q) (cw now : Q) :
  exists nx, push_right (List.length ig) (range_positions ig cw) now = Some nx /\ now <= nx /\
    (nx = now \/ exists d, In d ig /\ nx = d + cw) /\
    (forall d, In d ig -> ~ (d <= nx /\ nx < d + cw)).
Proof.
  destruct (push_right_spec (range_positions ig cw) (List.length ig) now
              (range_positions_bound _ _ _ _)) as (nx & H1 & H2 & H3 & H4).
  exists nx. split; [exact H1|]. split; [exact H2|]. split.
  - destruct H3 as [H3|(r & Hr & ->)]; [auto|]. right.
    apply In_range_positions in Hr. destruct Hr as (d & Hd & ->). exists d. auto.
  - intros d Hd. apply (H4 (d, d + cw)). apply In_range_positions. eauto.
Qed.

Lemma push_left_ranges (ig : list Q) (cw now : Q) :
  exists nx, push_left (List.length ig) (range_positions ig cw) now = Some nx /\ nx <= now /\
    (nx = now \/ exists d, In d ig /\ nx = d) /\
    (forall d, In d ig -> ~ (d < nx /\ nx <= d + cw)).
Proof.
  destruct (push_left_spec (range_positions ig cw) (List.length ig) now
              (range_positions_bound _ _ _ _)) as (nx & H1 & H2 & H3 & H4).
  exists nx. split; [exact H1|]. split; [exact H2|]. split.
  - destruct H3 as [H3|(r & Hr & ->)]; [auto|]. right.
    apply In_range_positions in Hr. destruct Hr as (d & Hd & ->). exists d. auto.
  - intros d Hd. apply (H4 (d, d + cw)). apply In_range_positions. eauto.
Qed.

(** The loops of the progress handle's [mousemove] stop after at most one
    jump per ignored column.  Moving right, the mouse position is carried
    to the end [d + column_width] of ignored columns until it lies in no
    [[d, d + column_width)]; moving left, to their start [d] until it lies
    in no [(d, d + column_width]].  It only moves in the direction of the
    drag. *)
Theorem progress_handle_skips_ignored (ig : list Q) (cw now : Q) :
  (exists nx, push_right (List.length ig) (range_positions ig cw) now = Some nx /\ now <= nx /\
     (nx = now \/ exists d, In d ig /\ nx = d + cw) /\
     (forall d, In d ig -> ~ (d <= nx /\ nx < d + cw))) /\
  (exists nx, push_left (List.length ig) (range_positions ig cw) now = Some nx /\ nx <= now /\
     (nx = now \/ exists d, In d ig /\ nx = d) /\
     (forall d, In d ig -> ~ (d < nx /\ nx <= d + cw))).
Proof. split; [apply push_right_ranges | apply push_left_ranges]. Qed.

(** For a bar of non-negative width, dragging its progress handle sets the
    progress width [owidth + dx] between 0 and the bar's width; when the
    mouse position, once carried out of ignored columns, stays within the
    bar, [dx] is exactly its distance to where the drag started. *)
Theorem progress_drag_width (ig : list Q) (cw x_on_start bar_width pw now : Q) :
  0 <= bar_width ->
  exists w fdx,
    progress_mousemove (List.length ig) (range_positions ig cw)
      (progress_mousedown x_on_start bar_width pw) now = Some (w, fdx) /\
    w == pw + fdx /\ 0 <= w <= bar_width /\
    (forall nx, (if Qltb x_on_start now then push_right (List.length ig) (range_positions ig cw) now
                else push_left (List.length ig) (range_positions ig cw) now) = Some nx ->
       - pw <= nx - x_on_start <= bar_width - pw -> fdx == nx - x_on_start).
Proof.
  intros Hbw. unfold progress_mousemove, progress_mousedown. simpl.
  assert (Hex : exists nx, (if Qltb x_on_start now
                            then push_right (List.length ig) (range_positions ig cw) now
                            else push_left (List.length ig) (range_positions ig cw) now) = Some nx).
  { destruct (Qltb x_on_start now).
    - destruct (push_right_ranges ig cw now) as (nx & H & _). eauto.
    - destruct (push_left_ranges ig cw now) as (nx & H & _). eauto. }
  destruct Hex as [nx Hnx]. rewrite Hnx.
  set (d := nx - x_on_start).
  set (d1 := if Qltb (bar_width - pw) d then bar_width - pw else d).
  set (d2 := if Qltb d1 (- pw) then - pw else d1).
  assert (Hd1 : d1 <= bar_width - pw /\ (d <= bar_width - pw -> d1 == d)).
  { unfold d1. destruct (Qltb (bar_width - pw) d) eqn:E.
    - apply Qltb_iff in E. split; [lra|]. intros H; lra.
    - split; [|intros _; reflexivity]. apply Qnot_lt_le. intros H.
      apply Qltb_iff in H. congruence. }
  assert (Hd2 : - pw <= d2 /\ d2 <= bar_width - pw /\ (- pw <= d1 -> d2 == d1)).
  { unfold d2. destruct (Qltb d1 (- pw)) eqn:E.
    - apply Qltb_iff in E. split; [lra|]. split; [lra|]. intros H; lra.
    - assert (H : - pw <= d1).
      { apply Qnot_lt_le. intros H. apply Qltb_iff in H. congruence. }
      split; [exact H|]. split; [lra|]. intros _; reflexivity. }
  exists (pw + d2), d2. split; [reflexivity|]. split; [reflexivity|]. split; [lra|].
  intros nx' Hnx' Hin. injection Hnx' as <-. fold d in Hin |- *.
  destruct Hd1 as [_ Hd1]. destruct Hd2 as (_ & _ & Hd2).
  rewrite Hd2; [|rewrite (Hd1 (proj2 Hin)); lra]. apply Hd1. lra.
Qed.

Lemma progress_drag_width_witness :
  exists w fdx,
    progress_mousemove (List.length [45]) (range_positions [45] 45)
      (progress_mousedown 0 135 0) 60 = Some (w, fdx) /\
    w == 0 + fdx /\ 0 <= w <= 135 /\
    (forall nx, (if Qltb 0 60 then push_right (List.length [45]) (range_positions [45] 45) 60
                else push_left (List.length [45]) (range_positions [45] 45) 60) = Some nx ->
       - 0 <= nx - 0 <= 135 - 0 -> fdx == nx - 0).
Proof. exact (progress_drag_width [45] 45 0 135 0 60 ltac:(lra)). Defined.

End ProgressDragFacts.


(* ------------------------------------------------------------------ *)
(** * Chart extent, start date and header columns *)
Module ChartFacts.
Import Snap Dates BarModel Tasks Chart SnapFacts BarFacts.

Lemma if_min (a b : Q) :
  (if Qltb a b then a else b) <= b /\ (if Qltb a b then a else b) <= a /\
  ((if Qltb a b then a else b) = a \/ (if Qltb a b then a else b) = b).
Proof.
  destruct (Qltb a b) eqn:E.
  - apply Qltb_iff in E. split; [lra|]. split; [lra|]. auto.
  - assert (H : b <= a) by (apply Qnot_lt_le; intros H; apply Qltb_iff in H; congruence).
    split; [lra|]. split; [lra|]. auto.
Qed.

Lemma if_max (a b : Q) :
  a <= (if Qltb a b then b else a) /\ b <= (if Qltb a b then b else a) /\
  ((if Qltb a b then b else a) = a \/ (if Qltb a b then b else a) = b).
Proof.
  destruct (Qltb a b) eqn:E.
  - apply Qltb_iff in E. split; [lra|]. split; [lra|]. auto.
  - assert (H : b <= a) by (apply Qnot_lt_le; intros H; apply Qltb_iff in H; congruence).
    split; [lra|]. split; [lra|]. auto.
Qed.

Lemma positions_fold (boxes : list bbox) :
  forall mn mxs mxe, exists a b c,
    fold_left
      (fun acc bx =>
         let '(min_start, max_start, max_end) := acc in
         (if Qltb (bb_x bx) min_start then bb_x bx else min_start,
          if Qltb max_start (bb_x bx) then bb_x bx else max_start,
          if Qltb max_end (bb_x bx + bb_width bx) then bb_x bx + bb_width bx else max_end))
      boxes (mn, mxs, mxe) = (a, b, c) /\
    a <= mn /\ mxs <= b /\ mxe <= c /\
    (forall bx, In bx boxes -> a <= bb_x bx /\ bb_x bx <= b /\ bb_x bx + bb_width bx <= c) /\
    (a = mn \/ exists bx, In bx boxes /\ a = bb_x bx) /\
    (b = mxs \/ exists bx, In bx boxes /\ b = bb_x bx) /\
    (c = mxe \/ exists bx, In bx boxes /\ c = bb_x bx + bb_width bx).
Proof.
  induction boxes as [|bx boxes IH]; intros mn mxs mxe; simpl.
  - exists mn, mxs, mxe. split; [reflexivity|].
    split; [lra|]. split; [lra|]. split; [lra|]. split; [intros _ []|]. auto.
  - destruct (IH (if Qltb (bb_x bx) mn then bb_x bx else mn)
                 (if Qltb mxs (bb_x bx) then bb_x bx else mxs)
                 (if Qltb mxe (bb_x bx + bb_width bx) then bb_x bx + bb_width bx else mxe))
      as (a & b & c & Hf & Ha & Hb & Hc & Hall & Wa & Wb & Wc).
    destruct (if_min (bb_x bx) mn) as (m1 & m2 & m3).
    destruct (if_max mxs (bb_x bx)) as (n1 & n2 & n3).
    destruct (if_max mxe (bb_x bx + bb_width bx)) as (p1 & p2 & p3).
    exists a, b, c. split; [exact Hf|].
    split; [lra|]. split; [lra|]. split; [lra|]. split.
    + intros bx' [<-|Hbx]; [split; [lra|]; split; lra | exact (Hall bx' Hbx)].
    + split; [|split].
      * destruct Wa as [->|(bx' & H1 & H2)]; [|right; exists bx'; auto].
        destruct m3 as [->| ->]; [right; exists bx; auto | auto].
      * destruct Wb as [->|(bx' & H1 & H2)]; [|right; exists bx'; auto].
        destruct n3 as [->| ->]; [auto | right; exists bx; auto].
      * destruct Wc as [->|(bx' & H1 & H2)]; [|right; exists bx'; auto].
        destruct p3 as [->| ->]; [auto | right; exists bx; auto].
Qed.

(** With at least one bar, [get_start_end_positions()] returns the least
    left edge, the greatest left edge and the greatest right edge
    [x + width] of the bars' boxes: each bounds every bar and is the value
    of one of them. *)
Theorem get_start_end_positions_bounds (boxes : list bbox) :
  boxes <> [] ->
  exists min_start max_start max_end,
    get_start_end_positions boxes = (min_start, max_start, max_end) /\
    (forall bx, In bx boxes ->
       min_start <= bb_x bx <= max_start /\ bb_x bx + bb_width bx <= max_end) /\
    (exists bx, In bx boxes /\ min_start = bb_x bx) /\
    (exists bx, In bx boxes /\ max_start = bb_x bx) /\
    (exists bx, In bx boxes /\ max_end = bb_x bx + bb_width bx).
Proof.
  destruct boxes as [|b0 rest] eqn:Eb; [congruence|]. intros _.
  rewrite <- Eb. unfold get_start_end_positions. rewrite Eb. rewrite <- Eb.
  assert (H0 : In b0 boxes) by (rewrite Eb; now left).
  destruct (positions_fold boxes (bb_x b0) (bb_x b0) (bb_x b0 + bb_width b0))
    as (a & b & c & Hf & _ & _ & _ & Hall & Wa & Wb & Wc).
  exists a, b, c. rewrite Hf. split; [reflexivity|].
  split; [intros bx Hbx; destruct (Hall bx Hbx) as (H1 & H2 & H3); auto|].
  split; [destruct Wa as [->|W]; [exists b0; auto | exact W]|].
  split; [destruct Wb as [->|W]; [exists b0; auto | exact W]|].
  destruct Wc as [->|W]; [exists b0; auto | exact W].
Qed.

Lemma get_start_end_positions_bounds_witness :
  exists min_start max_start max_end,
    get_start_end_positions [mk_bbox 90 45; mk_bbox 0 180; mk_bbox 45 45] =
      (min_start, max_start, max_end) /\
    (forall bx, In bx [mk_bbox 90 45; mk_bbox 0 180; mk_bbox 45 45] ->
       min_start <= bb_x bx <= max_start /\ bb_x bx + bb_width bx <= max_end) /\
    (exists bx, In bx [mk_bbox 90 45; mk_bbox 0 180; mk_bbox 45 45] /\ min_start = bb_x bx) /\
    (exists bx, In bx [mk_bbox 90 45; mk_bbox 0 180; mk_bbox 45 45] /\ max_start = bb_x bx) /\
    (exists bx, In bx [mk_bbox 90 45; mk_bbox 0 180; mk_bbox 45 45] /\
                max_end = bb_x bx + bb_width bx).
Proof.
  exact (get_start_end_positions_bounds [mk_bbox 90 45; mk_bbox 0 180; mk_bbox 45 45]
           ltac:(discriminate)).
Defined.

Section Select.
Variable cmp : option Z -> option Z -> bool.
Hypothesis cmp_None_l : forall y, cmp None y = false.
Hypothesis cmp_None_r : forall x, cmp x None = false.
Variable R : Z -> Z -> Prop.
Hypothesis R_refl : forall x, R x x.
Hypothesis R_trans : forall x y z, R x y -> R y z -> R x z.
Hypothesis cmp_true : forall x y, cmp (Some x) (Some y) = true -> R x y.
Hypothesis cmp_false : forall x y, cmp (Some x) (Some y) = false -> R y x.

(** [reduce((prev, cur) => cmp(cur, prev) ? cur : prev)] keeps an invalid
    first value, and otherwise ends on a valid value related to every valid
    value it met. *)
Lemma fold_select (l : list (option Z)) :
  forall s0,
  (s0 = None -> fold_left (fun prev cur => if cmp cur prev then cur else prev) l s0 = None) /\
  (forall x, s0 = Some x ->
     exists m, fold_left (fun prev cur => if cmp cur prev then cur else prev) l s0 = Some m /\
       R m x /\ (forall y, In (Some y) l -> R m y) /\ (m = x \/ In (Some m) l)).
Proof.
  induction l as [|c l IH]; intros s0; simpl.
  - split; [auto|]. intros x ->. exists x. split; [reflexivity|]. split; [auto|].
    split; [intros y []|]. auto.
  - split.
    + intros ->. rewrite cmp_None_r. apply (proj1 (IH None)). reflexivity.
    + intros x ->. destruct c as [z|].
      * destruct (cmp (Some z) (Some x)) eqn:E.
        -- destruct (proj2 (IH (Some z)) z eq_refl) as (m & Hm & R1 & R2 & W).
           exists m. split; [exact Hm|]. split; [exact (R_trans _ _ _ R1 (cmp_true _ _ E))|].
           split.
           ++ intros y [Hy|Hy]; [injection Hy as <-; exact R1 | exact (R2 y Hy)].
           ++ right. destruct W as [->|W]; [now left | now right].
        -- destruct (proj2 (IH (Some x)) x eq_refl) as (m & Hm & R1 & R2 & W).
           exists m. split; [exact Hm|]. split; [exact R1|]. split.
           ++ intros y [Hy|Hy]; [injection Hy as <-; exact (R_trans _ _ _ R1 (cmp_false _ _ E))
                                | exact (R2 y Hy)].
           ++ destruct W as [->|W]; [now left | right; now right].
      * rewrite cmp_None_l.
        destruct (proj2 (IH (Some x)) x eq_refl) as (m & Hm & R1 & R2 & W).
        exists m. split; [exact Hm|]. split; [exact R1|]. split.
        -- intros y [Hy|Hy]; [discriminate | exact (R2 y Hy)].
        -- destruct W as [->|W]; [now left | right; now right].
Qed.

End Select.

Lemma In_map_r_start (ts : list resolved_task) (f : resolved_task -> option Z) (y : Z) :
  In (Some y) (map f ts) <-> exists t, In t ts /\ f t = Some y.
Proof.
  rewrite in_map_iff. split; intros (t & H1 & H2); exists t; auto.
Qed.

(** [get_oldest_starting_date()] with tasks: when the first task's start
    is an invalid date the result is that invalid date; otherwise it is
    the earliest valid start, invalid starts of later tasks being passed
    over ([cur_date <= prev_date] is false for them). *)
Theorem get_oldest_starting_date_spec (now : Z) (t0 : resolved_task) (ts : list resolved_task) :
  (r_start t0 = None -> get_oldest_starting_date now (t0 :: ts) = None) /\
  (forall s0, r_start t0 = Some s0 ->
     exists m, get_oldest_starting_date now (t0 :: ts) = Some m /\ (m <= s0)%Z /\
       (forall t s, In t ts -> r_start t = Some s -> (m <= s)%Z) /\
       (m = s0 \/ exists t, In t ts /\ r_start t = Some m)).
Proof.
  unfold get_oldest_starting_date. simpl.
  assert (Hs := fold_select date_le (fun y => eq_refl) (fun x => match x with Some _ => eq_refl | None => eq_refl end)
                  Z.le Z.le_refl Z.le_trans
                  (fun x y H => proj1 (Z.leb_le x y) H)
                  (fun x y H => Z.lt_le_incl _ _ (proj1 (Z.leb_gt x y) H))
                  (map r_start ts) (r_start t0)).
  destruct Hs as [H1 H2]. split; [exact H1|].
  intros s0 E. destruct (H2 s0 E) as (m & Hm & R1 & R2 & W).
  exists m. split; [exact Hm|]. split; [exact R1|]. split.
  - intros t s Ht Hts. apply R2. apply In_map_r_start. eauto.
  - destruct W as [W|W]; [auto|]. right. now apply In_map_r_start.
Qed.

Lemma gantt_fold (tasks : list resolved_task) :
  forall a b,
  fold_left (fun acc t => (pick_start (fst acc) t, pick_end (snd acc) t)) tasks (Some a, Some b) =
  (Some (fold_left (fun prev cur => if date_lt cur prev then cur else prev) (map r_start tasks) a),
   Some (fold_left (fun prev cur => if date_lt prev cur then cur else prev) (map r_end tasks) b)).
Proof.
  induction tasks as [|t tasks IH]; intros a b; simpl; [reflexivity|].
  rewrite <- IH. f_equal. unfold pick_start, pick_end.
  destruct (date_lt (r_start t) a), (date_lt b (r_end t)); reflexivity.
Qed.

(** The dates [setup_gantt_dates] starts from, for a non-empty task list:
    [gantt_start] is the earliest valid [_start] and [gantt_end] the latest
    valid [_end]; an invalid date of the first task is kept (no date
    compares below or above it), one of a later task is passed over. *)
Theorem gantt_bounds_spec (now : Z) (t0 : resolved_task) (ts : list resolved_task) :
  exists s e, gantt_bounds now (t0 :: ts) = Some (s, e) /\
    (r_start t0 = None -> s = None) /\
    (forall s0, r_start t0 = Some s0 ->
       exists m, s = Some m /\ (m <= s0)%Z /\
         (forall t z, In t ts -> r_start t = Some z -> (m <= z)%Z) /\
         (m = s0 \/ exists t, In t ts /\ r_start t = Some m)) /\
    (r_end t0 = None -> e = None) /\
    (forall e0, r_end t0 = Some e0 ->
       exists m, e = Some m /\ (e0 <= m)%Z /\
         (forall t z, In t ts -> r_end t = Some z -> (z <= m)%Z) /\
         (m = e0 \/ exists t, In t ts /\ r_end t = Some m)).
Proof.
  unfold gantt_bounds. simpl. rewrite gantt_fold.
  eexists; eexists; split; [reflexivity|].
  assert (Hs := fold_select date_lt (fun y => eq_refl)
                  (fun x => match x with Some _ => eq_refl | None => eq_refl end)
                  Z.le Z.le_refl Z.le_trans
                  (fun x y H => Z.lt_le_incl _ _ (proj1 (Z.ltb_lt x y) H))
                  (fun x y H => proj1 (Z.ltb_ge x y) H)
                  (map r_start ts) (r_start t0)).
  assert (He := fold_select (fun cur prev => date_lt prev cur)
                  (fun y => match y with Some _ => eq_refl | None => eq_refl end)
                  (fun x => eq_refl)
                  (fun x y => (y <= x)%Z) (fun x => Z.le_refl x)
                  (fun x y z H1 H2 => Z.le_trans _ _ _ H2 H1)
                  (fun x y H => Z.lt_le_incl _ _ (proj1 (Z.ltb_lt y x) H))
                  (fun x y H => proj1 (Z.ltb_ge y x) H)
                  (map r_end ts) (r_end t0)).
  cbv beta in He.
  destruct Hs as [S1 S2], He as [E1 E2].
  split; [intros H; rewrite (S1 H); reflexivity|].
  split; [|split; [intros H; rewrite (E1 H); reflexivity|]].
  - intros s0 E. destruct (S2 s0 E) as (m & Hm & R1 & R2 & W).
    exists m. rewrite Hm. split; [reflexivity|]. split; [exact R1|]. split.
    + intros t z Ht Hz. apply R2. apply In_map_r_start. eauto.
    + destruct W as [W|W]; [auto|]. right. now apply In_map_r_start.
  - intros e0 E. destruct (E2 e0 E) as (m & Hm & R1 & R2 & W).
    exists m. rewrite Hm. split; [reflexivity|]. split; [exact R1|]. split.
    + intros t z Ht Hz. apply R2. apply In_map_r_start. eauto.
    + destruct W as [W|W]; [auto|]. right. now apply In_map_r_start.
Qed.

Lemma dates_to_draw_from_nth (cw : Q) (dates : list Z) :
  forall last i di,
  nth_error (dates_to_draw_from cw last dates) i = Some di ->
  nth_error dates i = Some (di_date di) /\ di_column_width di = cw /\
  di_x di == match last with Some l => di_x l + di_column_width l | None => 0 end
             + inject_Z (Z.of_nat i) * cw.
Proof.
  induction dates as [|d dates IH]; intros last i di H; [destruct i; discriminate|].
  destruct i as [|i]; simpl in H.
  - injection H as <-. simpl. split; [reflexivity|]. split; [reflexivity|]. ring.
  - destruct (IH _ _ _ H) as (H1 & H2 & H3). split; [exact H1|]. split; [exact H2|].
    rewrite H3, inject_Z_succ_nat. cbn [get_date_info di_x di_column_width]. ring.
Qed.

Lemma dates_to_draw_from_length (cw : Q) (dates : list Z) :
  forall last, List.length (dates_to_draw_from cw last dates) = List.length dates.
Proof. induction dates as [|d dates IH]; intros last; simpl; [|rewrite IH]; reflexivity. Qed.

(** [get_dates_to_draw()] gives one column per date, in order: the
    [i]-th has that date, the configured column width, and
    [x = i * column_width]. *)
Theorem get_dates_to_draw_columns (cw : Q) (dates : list Z) :
  List.length (get_dates_to_draw cw dates) = List.length dates /\
  forall i di, nth_error (get_dates_to_draw cw dates) i = Some di ->
    nth_error dates i = Some (di_date di) /\ di_column_width di = cw /\
    di_x di == inject_Z (Z.of_nat i) * cw.
Proof.
  split; [apply dates_to_draw_from_length|].
  intros i di H. destruct (dates_to_draw_from_nth cw dates None i di H) as (H1 & H2 & H3).
  split; [exact H1|]. split; [exact H2|]. rewrite H3. ring.
Qed.

Lemma replace_all_get (c r : ascii) (s : string) :
  forall n, String.get n (replace_all c r s) =
            option_map (fun a => if Ascii.eqb a c then r else a) (String.get n s).
Proof.
  induction s as [|a s IH]; intros n; [reflexivity|]. destruct n; simpl; [reflexivity|]. apply IH.
Qed.

(** [sanitize(s)] changes each space, colon and dot into an underscore and
    keeps every other character; none of the three is left. *)
Theorem sanitize_chars (s : string) :
  (forall n, String.get n (sanitize s) =
     option_map (fun a => if (Ascii.eqb a " " || Ascii.eqb a ":" || Ascii.eqb a ".")%bool
                          then "_"%char else a) (String.get n s)) /\
  (forall n c, String.get n (sanitize s) = Some c -> c <> " "%char /\ c <> ":"%char /\ c <> "."%char).
Proof.
  assert (Hg : forall n, String.get n (sanitize s) =
     option_map (fun a => if (Ascii.eqb a " " || Ascii.eqb a ":" || Ascii.eqb a ".")%bool
                          then "_"%char else a) (String.get n s)).
  { intros n. unfold sanitize. rewrite !replace_all_get.
    destruct (String.get n s) as [a|]; [simpl|reflexivity]. f_equal.
    destruct (Ascii.eqb_spec a " ") as [->|H1]; [reflexivity|].
    destruct (Ascii.eqb_spec a ":") as [->|H2]; [reflexivity|].
    destruct (Ascii.eqb_spec a ".") as [->|H3]; [reflexivity|]. simpl.
    destruct (Ascii.eqb_spec a ":"); [contradiction|].
    destruct (Ascii.eqb_spec a "."); [contradiction|]. reflexivity. }
  split; [exact Hg|]. intros n c H. rewrite Hg in H.
  destruct (String.get n s) as [a|]; [|discriminate]. simpl in H. injection H as <-.
  destruct (Ascii.eqb_spec a " "); [simpl; repeat split; discriminate|].
  destruct (Ascii.eqb_spec a ":"); [simpl; repeat split; discriminate|].
  destruct (Ascii.eqb_spec a "."); [simpl; repeat split; discriminate|].
  simpl. auto.
Qed.

End ChartFacts.


(* ------------------------------------------------------------------ *)
(** * The day walk of [compute_duration] *)
Module WalkFacts.
Import Snap Dates BarModel BarFacts.
Local Open Scope Z_scope.

Lemma walk_days_count (cfg : gantt_config) (e : Z) (n : nat) :
  forall f d t a,
  e <= d + Z.of_nat n * ms_per_day ->
  (n = O \/ d + (Z.of_nat n - 1) * ms_per_day < e) ->
  (n <= f)%nat ->
  walk_days f cfg d e t a =
  Some (t + Z.of_nat n,
        a + Z.of_nat (List.length (filter (fun x => negb (g_is_ignored cfg x))
                                     (map (fun j => d + Z.of_nat j * ms_per_day) (seq 0 n))))).
Proof.
  induction n as [|n IH]; intros f d t a H1 H2 Hf.
  - rewrite walk_days_stop by (apply Z.ltb_ge; simpl in H1; lia).
    simpl. rewrite !Z.add_0_r. reflexivity.
  - assert (Hlt : d < e).
    { destruct H2 as [H2|H2]; [discriminate|]. unfold ms_per_day in *. lia. }
    destruct f as [|f]; [lia|].
    rewrite walk_days_step by (apply Z.ltb_lt; exact Hlt).
    rewrite (IH f (d + ms_per_day)); [| unfold ms_per_day in *; lia
                                     | destruct n; [left; reflexivity | right; unfold ms_per_day in *; lia]
                                     | lia].
    f_equal. f_equal; [lia|].
    change (seq 0 (S n)) with (0%nat :: seq 1 n). rewrite <- seq_shift. cbn [map].
    rewrite map_map.
    replace (map (fun x => d + Z.of_nat (S x) * ms_per_day) (seq 0 n))
      with (map (fun j => d + ms_per_day + Z.of_nat j * ms_per_day) (seq 0 n))
      by (apply map_ext; intros j; lia).
    replace (d + Z.of_nat 0 * ms_per_day) with d by lia.
    cbn [filter]. destruct (g_is_ignored cfg d); cbn [negb List.length]; lia.
Qed.

(** The day walk of [compute_duration()] from [_start] to [_end], given
    enough iterations, visits the [n = ceil((_end - _start) / day)] days
    [_start + j * day] ([j < n], [0] when [_end <= _start]): it counts all
    [n] of them and, separately, those not ignored. *)
Theorem walk_days_counts (f : nat) (cfg : gantt_config) (d e t a : Z) :
  let n := Z.to_nat ((e - d + ms_per_day - 1) / ms_per_day) in
  (n <= f)%nat ->
  walk_days f cfg d e t a =
  Some (t + Z.of_nat n,
        a + Z.of_nat (List.length (filter (fun x => negb (g_is_ignored cfg x))
                                     (map (fun j => d + Z.of_nat j * ms_per_day) (seq 0 n))))).
Proof.
  intros n Hf. apply walk_days_count; [| |exact Hf].
  all: assert (Hdm := Z.div_mod (e - d + ms_per_day - 1) ms_per_day ltac:(discriminate));
    assert (Hmb := Z.mod_pos_bound (e - d + ms_per_day - 1) ms_per_day ltac:(reflexivity));
    set (q := (e - d + ms_per_day - 1) / ms_per_day) in *;
    set (r := (e - d + ms_per_day - 1) mod ms_per_day) in *;
    unfold n; destruct (Z_le_gt_dec q 0) as [Hq|Hq].
  - replace (Z.to_nat q) with O by (destruct q; [reflexivity | lia | reflexivity]). unfold ms_per_day in *. simpl. lia.
  - rewrite Z2Nat.id by lia. unfold ms_per_day in *. lia.
  - left. replace (Z.to_nat q) with O by (destruct q; [reflexivity | lia | reflexivity]). reflexivity.
  - right. rewrite Z2Nat.id by lia. unfold ms_per_day in *. lia.
Qed.

Lemma walk_days_counts_witness :
  walk_days 4 (scenario_config (fun _ => false)) (make_date 2024 0 1 0) (make_date 2024 0 5 0) 0 0 =
  Some (0 + Z.of_nat (Z.to_nat ((make_date 2024 0 5 0 - make_date 2024 0 1 0 + ms_per_day - 1)
                                   / ms_per_day)),
        0 + Z.of_nat (List.length (filter (fun x => negb (g_is_ignored (scenario_config (fun _ => false)) x))
               (map (fun j => make_date 2024 0 1 0 + Z.of_nat j * ms_per_day)
                  (seq 0 (Z.to_nat ((make_date 2024 0 5 0 - make_date 2024 0 1 0 + ms_per_day - 1)
                                      / ms_per_day))))))).
Proof.
  exact (walk_days_counts 4 (scenario_config (fun _ => false)) (make_date 2024 0 1 0)
           (make_date 2024 0 5 0) 0 0 ltac:(vm_compute; lia)).
Defined.

End WalkFacts.


(* ------------------------------------------------------------------ *)
(** * The [_index] of retained tasks *)
Module TaskIndexFacts.
Import Tasks TaskFacts.
Local Open Scope nat_scope.

Lemma setup_tasks_from_index (ts : list task) :
  forall i k r, nth_error (setup_tasks_from i ts) k = Some r ->
  (i + k <= r_index r)%nat /\
  (r_index r = i + k <->
   forall j t, (i + j < r_index r)%nat -> nth_error ts j = Some t ->
     exists r', setup_task (i + j) t = Some r').
Proof.
  induction ts as [|t ts IH]; intros i k r H; [destruct k; discriminate|].
  simpl in H. destruct (setup_task i t) as [r0|] eqn:E.
  - destruct k as [|k].
    + simpl in H. injection H as <-. rewrite (setup_task_index _ _ _ E).
      split; [lia|]. split; [intros _ j t' Hj; lia | intros _; lia].
    + simpl in H. destruct (IH (S i) k r H) as [Hle Hiff]. split; [lia|]. split.
      * intros Heq j t' Hj Ht'. destruct j as [|j].
        -- simpl in Ht'. injection Ht' as <-. rewrite Nat.add_0_r. eauto.
        -- simpl in Ht'. replace (i + S j)%nat with (S i + j)%nat by lia.
           apply (proj1 Hiff ltac:(lia) j t'); [lia | exact Ht'].
      * intros Hall. assert (r_index r = S i + k)%nat; [|lia].
        apply Hiff. intros j t' Hj Ht'. replace (S i + j)%nat with (i + S j)%nat by lia.
        apply (Hall (S j) t'); [lia | exact Ht'].
  - destruct (IH (S i) k r H) as [Hle Hiff]. split; [lia|]. split; [intros; lia|].
    intros Hall. destruct (Hall O t ltac:(lia) eq_refl) as [r' Hr'].
    rewrite Nat.add_0_r, E in Hr'. discriminate.
Qed.

(** The [k]-th task of [this.tasks] (after [setup_tasks] dropped the
    invalid ones) has [_index] at least [k], and exactly [k] when every task
    before it in the input was retained: [_index] is the position in the
    input list, not in [this.tasks] (nor in [this.bars], which [make_bars]
    builds in the order of [this.tasks]). *)
Theorem setup_tasks_index_position (ts : list task) (k : nat) (r : resolved_task) :
  nth_error (setup_tasks ts) k = Some r ->
  (k <= r_index r)%nat /\
  (r_index r = k <->
   forall j t, (j < r_index r)%nat -> nth_error ts j = Some t -> exists r', setup_task j t = Some r').
Proof.
  intros H. exact (setup_tasks_from_index ts 0 k r H).
Qed.

Lemma setup_tasks_index_position_witness :
  (O <= 1)%nat /\
  (1%nat = O <->
   forall j t, (j < 1)%nat -> nth_error [mk_task None None None; long_task] j = Some t ->
     exists r', setup_task j t = Some r').
Proof.
  assert (H := setup_tasks_index_position [mk_task None None None; long_task] O
                 (mk_resolved_task 1 (parse (t_start long_task))
                    (full_day_end (parse (t_end long_task)))) ltac:(vm_compute; reflexivity)).
  exact H.
Defined.

End TaskIndexFacts.
